(** * Options-chain dashboard: the data acquisition and shaping pipeline

    A shallow embedding of [streamlit_app.py]: the three cached gateway
    functions ([get_all_expiration_dates], [get_options_chain],
    [get_valid_expirations]) and the table computations of the three plot
    functions, over a small model of the pandas tables they manipulate. *)

From Stdlib Require Import ZArith String.
From stdpp Require Import gmap strings list sorting.

Local Open Scope string_scope.
Local Open Scope list_scope.
Local Open Scope nat_scope.

(** ** Python results *)

(** The exceptions the modelled code can meet. [ProviderError] stands for
    whatever [yfinance] raises: the ValueError of [yf.Ticker] for a symbol
    it refuses, a network error, a malformed answer. *)
Inductive exn :=
| KeyError (key : string)
| TypeError
| ProviderError.

Inductive result (A : Type) :=
| Ok (a : A)
| Raise (e : exn).
Arguments Ok {A} a.
Arguments Raise {A} e.

(** A computation over a mutable state [S] that may raise: the state
    reached so far survives the exception, as in Python. *)
Definition M (S A : Type) : Type := S -> result A * S.

#[global] Instance M_ret {S} : MRet (M S) :=
  fun A a s => (Ok a, s).

#[global] Instance M_bind {S} : MBind (M S) :=
  fun A B k m s => match m s with
                   | (Ok a, s') => k a s'
                   | (Raise e, s') => (Raise e, s')
                   end.

(** [try: body / except: handler] with a bare [except]. *)
Definition try_except {S A} (body handler : M S A) : M S A :=
  fun s => match body s with
           | (Ok a, s') => (Ok a, s')
           | (Raise _, s') => handler s'
           end.

(** A pure step that may raise. *)
Definition lift {S A} (r : result A) : M S A := fun s => (r, s).

#[global] Instance result_ret : MRet result := fun A a => Ok a.

#[global] Instance result_fmap : FMap result :=
  fun A B f r => match r with
                 | Ok a => Ok (f a)
                 | Raise e => Raise e
                 end.

#[global] Instance result_bind : MBind result :=
  fun A B k r => match r with
                 | Ok a => k a
                 | Raise e => Raise e
                 end.

(** ** Tables *)

(** A cell. Numbers are integers (a strike is a price in ticks); [NaN] is
    the missing value pandas fills in. *)
Inductive value :=
| VInt (z : Z)
| VStr (s : string)
| NaN.

#[global] Instance value_eq_dec : EqDecision value.
Proof. solve_decision. Defined.

#[global] Instance value_countable : Countable value.
Proof.
  refine (inj_countable'
    (fun v => match v with
              | VInt z => inl z
              | VStr s => inr (inl s)
              | NaN => inr (inr ())
              end)
    (fun x => match x with
              | inl z => VInt z
              | inr (inl s) => VStr s
              | inr (inr _) => NaN
              end) _).
  by intros [].
Defined.

(** A row is its index label and its cells by column name; a cell that a
    row does not hold reads as [NaN]. A Series is the list of the cells
    of one column, in row order: every Series below is taken from the
    table it is used with, so alignment on the index is positional. *)
Abbreviation Row := (gmap string value).

Record DataFrame := mkDF {
  columns : list string;
  rows : list (nat * Row)
}.

Definition cell (r : Row) (c : string) : value := default NaN (r !! c).

(** [pd.DataFrame()] *)
Definition DataFrame_new : DataFrame := mkDF [] [].

(** [df.empty]: some axis has length 0. *)
Definition empty (df : DataFrame) : bool :=
  match columns df, rows df with
  | [], _ => true
  | _, [] => true
  | _, _ => false
  end.

(** [df[c]] *)
Definition getitem (df : DataFrame) (c : string) : result (list value) :=
  if decide (c ∈ columns df)
  then Ok (map (fun r => cell r.2 c) (rows df))
  else Raise (KeyError c).

Definition add_column (cs : list string) (c : string) : list string :=
  if decide (c ∈ cs) then cs else cs ++ [c].

(** [df[c] = scalar] *)
Definition setitem_scalar (df : DataFrame) (c : string) (v : value) : DataFrame :=
  mkDF (add_column (columns df) c)
       (map (fun r => (r.1, <[c := v]> r.2)) (rows df)).

(** [df[c] = series] *)
Definition setitem (df : DataFrame) (c : string) (s : list value) : DataFrame :=
  mkDF (add_column (columns df) c)
       (zip_with (fun r v => (r.1, <[c := v]> r.2)) (rows df) s).

(** [pd.concat([a, b], ignore_index=True)]: the rows of [a] then those of
    [b], relabelled 0.., over the union of the columns. *)
Definition concat (a b : DataFrame) : DataFrame :=
  mkDF (columns a ++ filter (fun c => c ∉ columns a) (columns b))
       (zip (seq 0 (length (rows a) + length (rows b)))
            (map snd (rows a ++ rows b))).

(** [df[mask]] *)
Fixpoint mask_rows {A} (l : list A) (m : list bool) : list A :=
  match l, m with
  | x :: l', b :: m' => if b then x :: mask_rows l' m' else mask_rows l' m'
  | _, _ => []
  end.

Definition getitem_mask (df : DataFrame) (m : list bool) : DataFrame :=
  mkDF (columns df) (mask_rows (rows df) m).

(** ** The chain normalizer *)

(** Lines 25-28 of the source: tag each side, concatenate, stamp. *)
Definition normalize (calls puts : DataFrame) (expiration : string) : DataFrame :=
  let calls_df := setitem_scalar calls "option_type" (VStr "Call") in
  let puts_df := setitem_scalar puts "option_type" (VStr "Put") in
  let df := concat calls_df puts_df in
  setitem_scalar df "expiration_date" (VStr expiration).

(** ** Series operations *)

Definition is_int (v : value) : bool :=
  match v with VInt _ => true | _ => false end.

Definition is_str (v : value) : bool :=
  match v with VStr _ => true | _ => false end.

Definition is_nan (v : value) : bool :=
  match v with NaN => true | _ => false end.



(** What int64 arithmetic makes of the exact result [z]: numpy does
    not check for overflow, the result wraps modulo 2^64. *)
Definition wrap_int64 (z : Z) : Z := ((z + 2 ^ 63) mod 2 ^ 64 - 2 ^ 63)%Z.

(** The exact total of the numbers of a Series, the missing values
    skipped; adding a string to a number raises. *)
Fixpoint exact_sum (s : list value) : result Z :=
  match s with
  | [] => Ok 0%Z
  | VInt z :: s' => t ← exact_sum s'; Ok (z + t)%Z
  | NaN :: s' => exact_sum s'
  | VStr _ :: _ => Raise TypeError
  end.

(** [series.sum()]. A column of numbers without a missing value is an
    int64 column, and its sum is an int64 sum: the exact total wrapped.
    A column with a missing value is a float column; the model keeps its
    sum exact, as the float sum is while the numbers stay below 2^53. *)
Definition series_sum (s : list value) : result Z :=
  t ← exact_sum s;
  Ok (if forallb is_int s then wrap_int64 t else t).

(** [series > 0], elementwise. *)
Fixpoint series_gt0 (s : list value) : result (list bool) :=
  match s with
  | [] => Ok []
  | VInt z :: s' => m ← series_gt0 s'; Ok ((0 <? z)%Z :: m)
  | NaN :: s' => m ← series_gt0 s'; Ok (false :: m)
  | VStr _ :: _ => Raise TypeError
  end.

(** [series != 0], elementwise. *)
Definition series_ne0 (s : list value) : list bool :=
  map (fun v => bool_decide (v ≠ VInt 0)) s.

Definition value_sub (a b : value) : result value :=
  match a, b with
  | VInt x, VInt y => Ok (VInt (x - y))
  | VStr _, _ | _, VStr _ => Raise TypeError
  | _, _ => Ok NaN
  end.

(** [a - b], elementwise. *)
Fixpoint series_sub (a b : list value) : result (list value) :=
  match a, b with
  | x :: a', y :: b' => v ← value_sub x y; s ← series_sub a' b'; Ok (v :: s)
  | _, _ => Ok []
  end.

(** *** [groupby(by)[col].shift(1, fill_value)] *)

(** One pass over the group labels, as pandas does it: [label_indexer]
    holds, per label, the position of the latest row seen with it, and
    the output position is the row one step back in the same group, if
    there is one. Rows with a missing key belong to no group. *)
Fixpoint group_shift_indexer (labels : list value) (ii : nat)
    (label_indexer : gmap value nat) : list (option nat) :=
  match labels with
  | [] => []
  | NaN :: labels' => None :: group_shift_indexer labels' (S ii) label_indexer
  | lab :: labels' =>
      label_indexer !! lab
        :: group_shift_indexer labels' (S ii) (<[lab := ii]> label_indexer)
  end.

(** Reindexing with a fill value for the positions without a source. *)
Definition take_fill (vals : list value) (indexer : list (option nat))
    (fill_value : value) : list value :=
  map (fun o => match o with
                | Some j => default NaN (vals !! j)
                | None => fill_value
                end) indexer.

Definition groupby_shift (df : DataFrame) (by_ col : string) (fill_value : value)
    : result (list value) :=
  keys ← getitem df by_;
  vals ← (if decide (col ∈ columns df) then getitem df col
          else Raise (KeyError ("Column not found: " ++ col)));
  Ok (take_fill vals (group_shift_indexer keys 0 ∅) fill_value).

(** *** [sort_values(by, ascending)] *)

(** Order of two cells that are not missing: numbers by value, strings
    by code point, and in a column that mixes them the numbers before
    the strings. *)
Definition value_compare (a b : value) : comparison :=
  match a, b with
  | VInt x, VInt y => Z.compare x y
  | VStr x, VStr y => String.compare x y
  | VInt _, VStr _ => Lt
  | VStr _, VInt _ => Gt
  | _, _ => Eq
  end.

(** Missing values sort last whatever the direction. *)
Definition key_compare (ascending : bool) (a b : value) : comparison :=
  match a, b with
  | NaN, NaN => Eq
  | NaN, _ => Gt
  | _, NaN => Lt
  | _, _ => if ascending then value_compare a b else value_compare b a
  end.

(** Lexicographic order of two rows on the sort keys. *)
Fixpoint rows_compare (by_ : list (string * bool)) (r1 r2 : Row) : comparison :=
  match by_ with
  | [] => Eq
  | (c, asc) :: by' =>
      match key_compare asc (cell r1 c) (cell r2 c) with
      | Eq => rows_compare by' r1 r2
      | o => o
      end
  end.

(** Stable insertion: [x], which came before every row of [l] in the
    input, goes in front of the first row that is not smaller. *)
Fixpoint insert_sorted {A} (cmp : A -> A -> comparison) (x : A) (l : list A) : list A :=
  match l with
  | [] => [x]
  | y :: l' =>
      match cmp x y with
      | Gt => y :: insert_sorted cmp x l'
      | _ => x :: y :: l'
      end
  end.

Definition stable_sort {A} (cmp : A -> A -> comparison) (l : list A) : list A :=
  foldr (insert_sorted cmp) [] l.

(** The key columns are looked up first: a missing one raises. *)
Fixpoint check_sort_keys (df : DataFrame) (by_ : list (string * bool)) : result () :=
  match by_ with
  | [] => Ok ()
  | (c, _) :: by' => getitem df c;; check_sort_keys df by'
  end.

(** [df.sort_values(by=[...], ascending=[...])] with several keys: a
    stable sort on the keys in turn. *)
Definition sort_values (df : DataFrame) (by_ : list (string * bool)) : result DataFrame :=
  check_sort_keys df by_;;
  Ok (mkDF (columns df)
           (stable_sort (fun r1 r2 => rows_compare by_ r1.2 r2.2) (rows df))).

(** ** The plot functions

    Each takes the table object [df] it is handed; that object is the
    state of the computation, so what a function does to its argument is
    visible to the caller. The result is the table handed to the bar
    plot ([data=...]); drawing is left out. *)

Definition get_df : M DataFrame DataFrame := fun df => (Ok df, df).

Definition put_df (df' : DataFrame) : M DataFrame () := fun _ => (Ok (), df').

(** Line 59: [df[df["change_in_OI"] != 0]]. *)
Definition nonZeroChanges (df : DataFrame) : result DataFrame :=
  change ← getitem df "change_in_OI";
  Ok (getitem_mask df (series_ne0 change)).

Definition plot_change_in_open_interest : M DataFrame DataFrame :=
  df ← get_df;
  (if decide ("prev_openInterest" ∈ columns df) then mret ()
   else
     shifted ← lift (groupby_shift df "strike" "openInterest" (VInt 0));
     put_df (setitem df "prev_openInterest" shifted));;
  df ← get_df;
  oi ← lift (getitem df "openInterest");
  prev ← lift (getitem df "prev_openInterest");
  change ← lift (series_sub oi prev);
  put_df (setitem df "change_in_OI" change);;
  df ← get_df;
  lift (nonZeroChanges df).

Definition plot_volume : M DataFrame DataFrame :=
  df ← get_df;
  volume ← lift (getitem df "volume");
  m ← lift (series_gt0 volume);
  mret (getitem_mask df m).

Definition plot_open_interest_sorted : M DataFrame DataFrame :=
  df ← get_df;
  oi ← lift (getitem df "openInterest");
  m ← lift (series_gt0 oi);
  lift (sort_values (getitem_mask df m)
          [("expiration_date", false); ("strike", true)]).

(** ** The market-data provider *)

(** What [yfinance] is to the program. [yf.Ticker(symbol)] builds the
    handle the requests go through, and may raise: it refuses an empty
    symbol, and it looks up a symbol written as an ISIN over the network.
    Reading [.options] of the handle or calling its
    [.option_chain(expiration)] is a request that may change the
    provider's state and may raise. A chain comes as its [.calls] and
    [.puts] tables. *)
Class Provider := {
  World : Type;
  Ticker : Type;
  yf_Ticker : string -> M World Ticker;
  yf_options : Ticker -> M World (list string);
  yf_option_chain : Ticker -> string -> M World (DataFrame * DataFrame)
}.

(** What a session leaves behind: requests sent to the provider and
    entries into the bodies of the cached functions. *)
Inductive event :=
| Request_options (ticker_symbol : string)
| Request_option_chain (ticker_symbol expiration : string)
| Enter_get_all_expiration_dates (ticker_symbol : string)
| Enter_get_options_chain (ticker_symbol expiration : string)
| Enter_get_valid_expirations (ticker_symbol : string).

#[global] Instance event_eq_dec : EqDecision event.
Proof. solve_decision. Defined.

Section Gateway.
Context `{P : Provider}.

(** The provider and the three [st.cache_data] stores. A store hands out
    a copy of the value it holds, so a caller that changes the table it
    got does not change the store. *)
Record AppState := mkState {
  world : World;
  expirations_cache : gmap string (list string);
  chain_cache : gmap (string * string) DataFrame;
  valid_cache : gmap string (list string);
  trace : list event
}.

Definition session_start (w : World) : AppState := mkState w ∅ ∅ ∅ [].

Definition set_world (w : World) (s : AppState) : AppState :=
  mkState w (expirations_cache s) (chain_cache s) (valid_cache s) (trace s).

Definition set_expirations_cache (c : gmap string (list string)) (s : AppState) : AppState :=
  mkState (world s) c (chain_cache s) (valid_cache s) (trace s).

Definition set_chain_cache (c : gmap (string * string) DataFrame) (s : AppState) : AppState :=
  mkState (world s) (expirations_cache s) c (valid_cache s) (trace s).

Definition set_valid_cache (c : gmap string (list string)) (s : AppState) : AppState :=
  mkState (world s) (expirations_cache s) (chain_cache s) c (trace s).

Definition log (ev : event) : M AppState () :=
  fun s => (Ok (), mkState (world s) (expirations_cache s) (chain_cache s)
                           (valid_cache s) (trace s ++ [ev])).

(** A call into the provider's library. *)
Definition provider {A} (io : M World A) : M AppState A :=
  fun s => let '(r, w) := io (world s) in (r, set_world w s).

(** A request to the provider, recorded in the trace. *)
Definition request {A} (ev : event) (io : M World A) : M AppState A :=
  fun s => let '(r, w) := io (world s) in
           (r, mkState w (expirations_cache s) (chain_cache s) (valid_cache s)
                       (trace s ++ [ev])).

(** [@st.cache_data]: on a hit the stored value is returned and the
    function is not entered; on a miss the function runs and its value,
    if it returns one, is stored. *)
Definition cache_data {K V} `{Countable K}
    (store : AppState -> gmap K V) (set_store : gmap K V -> AppState -> AppState)
    (enter : K -> event) (f : K -> M AppState V) : K -> M AppState V :=
  fun k s =>
    match store s !! k with
    | Some v => (Ok v, s)
    | None =>
        match f k (log (enter k) s).2 with
        | (Ok v, s') => (Ok v, set_store (<[k := v]> (store s')) s')
        | (Raise e, s') => (Raise e, s')
        end
    end.

(** Lines 13-17: the handle is built before the [try]. *)
Definition get_all_expiration_dates_wrapped (ticker_symbol : string)
    : M AppState (list string) :=
  ticker ← provider (yf_Ticker ticker_symbol);
  try_except
    (request (Request_options ticker_symbol) (yf_options ticker))
    (mret []).

Definition get_all_expiration_dates : string -> M AppState (list string) :=
  cache_data expirations_cache set_expirations_cache
    Enter_get_all_expiration_dates get_all_expiration_dates_wrapped.

(** Lines 22-31: again the handle is built before the [try]. *)
Definition get_options_chain_wrapped (key : string * string) : M AppState DataFrame :=
  let '(ticker_symbol, expiration) := key in
  ticker ← provider (yf_Ticker ticker_symbol);
  try_except
    (options_chain ← request (Request_option_chain ticker_symbol expiration)
                       (yf_option_chain ticker expiration);
     mret (normalize options_chain.1 options_chain.2 expiration))
    (mret DataFrame_new).

Definition get_options_chain (ticker_symbol expiration : string) : M AppState DataFrame :=
  cache_data chain_cache set_chain_cache
    (fun k => Enter_get_options_chain k.1 k.2) get_options_chain_wrapped
    (ticker_symbol, expiration).

(** Line 41: [not df.empty and df["openInterest"].sum() > 0]; the right
    operand is evaluated only when the left one is true. *)
Definition has_open_interest (df : DataFrame) : result bool :=
  if negb (empty df)
  then oi ← getitem df "openInterest"; total ← series_sum oi; Ok (0 <? total)%Z
  else Ok false.

(** Lines 39-42: the loop over the candidates, appending to
    [valid_expirations]. *)
Fixpoint valid_expirations_loop (ticker_symbol : string) (all_expirations : list string)
    (valid_expirations : list string) : M AppState (list string) :=
  match all_expirations with
  | [] => mret valid_expirations
  | expiry :: rest =>
      df ← get_options_chain ticker_symbol expiry;
      keep ← lift (has_open_interest df);
      valid_expirations_loop ticker_symbol rest
        (if keep : bool then valid_expirations ++ [expiry] else valid_expirations)
  end.

Definition get_valid_expirations_wrapped (ticker_symbol : string)
    : M AppState (list string) :=
  all_expirations ← get_all_expiration_dates ticker_symbol;
  valid_expirations_loop ticker_symbol all_expirations [].

Definition get_valid_expirations : string -> M AppState (list string) :=
  cache_data valid_cache set_valid_cache
    Enter_get_valid_expirations get_valid_expirations_wrapped.

(** *** Sessions *)

(** The calls a session makes, and what may happen between them. *)
Inductive action :=
| Call_get_all_expiration_dates (ticker_symbol : string)
| Call_get_options_chain (ticker_symbol expiration : string)
| Call_get_valid_expirations (ticker_symbol : string)
| Market_moves (w : World).

Definition perform (a : action) (s : AppState) : AppState :=
  match a with
  | Call_get_all_expiration_dates t => (get_all_expiration_dates t s).2
  | Call_get_options_chain t e => (get_options_chain t e s).2
  | Call_get_valid_expirations t => (get_valid_expirations t s).2
  | Market_moves w => set_world w s
  end.

(** The state after a list of actions, the first one first. *)
Definition run (acts : list action) (s : AppState) : AppState :=
  foldl (fun s a => perform a s) s acts.

Definition reachable (s : AppState) : Prop :=
  ∃ w acts, s = run acts (session_start w).

End Gateway.

(** ** The data model *)

(** A chain table: the five columns of an option record are there, and
    every row holds a number for strike, openInterest and volume, Call or
    Put for option_type and a string for expiration_date. Other columns
    pass through. *)
Definition chain_columns : list string :=
  ["strike"; "option_type"; "openInterest"; "volume"; "expiration_date"].

Definition chain_row (r : Row) : bool :=
  is_int (cell r "strike") && is_int (cell r "openInterest")
  && is_int (cell r "volume")
  && bool_decide (cell r "option_type" ∈ [VStr "Call"; VStr "Put"])
  && is_str (cell r "expiration_date").

Definition chain_table (df : DataFrame) : bool :=
  forallb (fun c => bool_decide (c ∈ columns df)) chain_columns
  && forallb (fun r => chain_row r.2) (rows df).

(** The cells a call-side or put-side row gets from the normalizer. *)
Definition tagged (option_type expiration : string) (r : Row) : Row :=
  <["expiration_date" := VStr expiration]> (<["option_type" := VStr option_type]> r).

(** What an in-place computation may have done to its table: [df'] has
    the rows of [df], in order and under the same labels, with the same
    cells except in the columns [cs], and the columns of [df] followed by
    those of [cs] that it lacked. *)
Definition differ_only_on (cs : list string) (df df' : DataFrame) : Prop :=
  (∃ added, columns df' = columns df ++ added ∧ added ⊆ cs)
  ∧ Forall2 (fun r r' : nat * Row =>
               r'.1 = r.1 ∧ ∀ k, k ∉ cs → r'.2 !! k = r.2 !! k)
            (rows df) (rows df').



(** [v > 0] as the mask of [series_gt0] has it. *)
Definition positive (v : value) : bool :=
  match v with
  | VInt z => (0 <? z)%Z
  | _ => false
  end.

(** The order of the sorted view on two rows: later expiration first,
    and lower strike first within one expiration. *)
Definition expiry_desc_strike_asc (r1 r2 : nat * Row) : Prop :=
  ∃ e1 e2 k1 k2,
    cell r1.2 "expiration_date" = VStr e1 ∧ cell r2.2 "expiration_date" = VStr e2
    ∧ cell r1.2 "strike" = VInt k1 ∧ cell r2.2 "strike" = VInt k2
    ∧ (String.compare e2 e1 = Lt ∨ (e1 = e2 ∧ (k1 ≤ k2)%Z)).

(** ** Sample data *)

Definition option_record (label : nat) (strike openInterest volume : Z) : nat * Row :=
  (label, {[ "strike" := VInt strike; "openInterest" := VInt openInterest;
             "volume" := VInt volume ]}).

Definition provider_columns : list string := ["strike"; "volume"; "openInterest"].

Definition sample_calls : DataFrame :=
  mkDF provider_columns [option_record 0 100 30 12; option_record 1 110 0 0].

Definition sample_puts : DataFrame :=
  mkDF provider_columns
       [option_record 0 100 50 4; option_record 1 90 7 0; option_record 2 110 0 3].

Definition sample_chain : DataFrame := normalize sample_calls sample_puts "2025-01-17".


(** The sort keys of [plot_open_interest_sorted]. *)
Definition sorted_view_keys : list (string * bool) :=
  [("expiration_date", false); ("strike", true)].

(** A chain without open interest. *)
Definition quiet_calls : DataFrame :=
  mkDF provider_columns [option_record 0 100 0 5; option_record 1 110 0 0].

Definition quiet_puts : DataFrame :=
  mkDF provider_columns [option_record 0 100 0 1].

(** A provider that knows AAPL, with two expirations of which the first
    has no open interest, lists one expiration for HALT but has no chain
    for it, and fails on every other request; it builds a handle for
    every symbol but the empty one. Its state counts the requests. *)
Definition sample_provider : Provider := {|
  World := nat;
  Ticker := string;
  yf_Ticker := fun t w =>
    if decide (t = "") then (Raise ProviderError, w) else (Ok t, w);
  yf_options := fun t w =>
    if decide (t = "AAPL") then (Ok ["2025-01-17"; "2025-02-21"], S w)
    else if decide (t = "HALT") then (Ok ["2025-03-21"], S w)
    else (Raise ProviderError, S w);
  yf_option_chain := fun t e w =>
    if decide (t = "AAPL") then
      if decide (e = "2025-01-17") then (Ok (quiet_calls, quiet_puts), S w)
      else if decide (e = "2025-02-21") then (Ok (sample_calls, sample_puts), S w)
      else (Raise ProviderError, S w)
    else (Raise ProviderError, S w)
|}.

Definition sample_session : @AppState sample_provider :=
  @session_start sample_provider 0.

Definition sample_actions : list (@action sample_provider) :=
  [@Call_get_options_chain sample_provider "AAPL" "2025-02-21";
   @Market_moves sample_provider 100;
   @Call_get_valid_expirations sample_provider "HALT"].

(** Rows of two expirations in one table: strikes 100 and 90 expiring
    2025-01-01, then strike 100 expiring 2025-02-01. *)
Definition two_expirations : DataFrame :=
  concat
    (normalize (mkDF provider_columns [option_record 0 100 4 1; option_record 1 90 6 1])
               (mkDF provider_columns []) "2025-01-01")
    (normalize (mkDF provider_columns [option_record 0 100 9 1])
               (mkDF provider_columns []) "2025-02-01").

(** ** Session invariants *)

Section Sessions.
Context `{P : Provider}.

(** Stores only gain entries and the trace only gets longer. *)
Definition grows (s s' : AppState) : Prop :=
  expirations_cache s ⊆ expirations_cache s'
  ∧ chain_cache s ⊆ chain_cache s'
  ∧ valid_cache s ⊆ valid_cache s'
  ∧ trace s `prefix_of` trace s'.

(** The stored chain of a candidate passes the test of line 41. *)
Definition chain_valid (c : gmap (string * string) DataFrame)
    (ticker_symbol expiry : string) : bool :=
  match c !! (ticker_symbol, expiry) with
  | Some df => match has_open_interest df with
               | Ok true => true
               | _ => false
               end
  | None => false
  end.

(** Every stored list of valid expirations is the stored candidate list
    filtered by the stored chains. *)
Definition cache_consistent (s : AppState) : Prop :=
  ∀ t vs, valid_cache s !! t = Some vs →
    ∃ all, expirations_cache s !! t = Some all
           ∧ (∀ e, e ∈ all → is_Some (chain_cache s !! (t, e)))
           ∧ vs = filter (fun e => chain_valid (chain_cache s) t e) all.

(** The chain requests among some events, in order. *)
Definition chain_requests (evs : list event) : list (string * string) :=
  omap (fun ev => match ev with
                  | Request_option_chain t e => Some (t, e)
                  | _ => None
                  end) evs.

(** The fetches of the candidates, made in turn from the state [s],
    all return an empty table. *)
Fixpoint fetches_empty (ticker_symbol : string) (all_expirations : list string)
    (s : AppState) : bool :=
  match all_expirations with
  | [] => true
  | expiry :: rest =>
      match get_options_chain ticker_symbol expiry s with
      | (Ok df, s') => empty df && fetches_empty ticker_symbol rest s'
      | (Raise _, _) => false
      end
  end.

(** The requests among some events, in order. *)
Definition is_request (ev : event) : bool :=
  match ev with
  | Request_options _ | Request_option_chain _ _ => true
  | _ => false
  end.

Definition requests (evs : list event) : list event :=
  filter (fun ev => is_request ev) evs.

(** The store of the cached function an event belongs to holds a value
    under the key of the event. *)
Definition stored (s : AppState) (ev : event) : Prop :=
  match ev with
  | Request_options t | Enter_get_all_expiration_dates t =>
      is_Some (expirations_cache s !! t)
  | Request_option_chain t e | Enter_get_options_chain t e =>
      is_Some (chain_cache s !! (t, e))
  | Enter_get_valid_expirations t => is_Some (valid_cache s !! t)
  end.

(** From [s] to [s'] the stores grew, and the trace got entries and
    requests for keys that had no value in [s] only, with no request
    twice and a value in [s'] for each request. *)
Definition fresh (s s' : AppState) : Prop :=
  grows s s'
  ∧ ∃ evs, trace s' = trace s ++ evs
           ∧ (∀ ev, ev ∈ evs → ¬ stored s ev)
           ∧ NoDup (requests evs)
           ∧ ∀ ev, ev ∈ requests evs → stored s' ev.

(** No request went out twice, and each one left a stored value. *)
Definition trace_once (s : AppState) : Prop :=
  NoDup (requests (trace s)) ∧ ∀ ev, ev ∈ requests (trace s) → stored s ev.






End Sessions.

(** ** Tick thinning *)

(** [series.unique()]: the distinct values, in order of first
    appearance. *)
Definition unique (s : list value) : list value :=
  foldl (fun seen v => if decide (v ∈ seen) then seen else seen ++ [v]) [] s.

(** [a[::step]] for a positive step: every [step]-th element, from the
    first one; [skip] elements are passed over before the next one is
    taken. *)
Fixpoint slice_from {A} (step skip : nat) (a : list A) : list A :=
  match a with
  | [] => []
  | x :: a' =>
      match skip with
      | 0 => x :: slice_from step (step - 1) a'
      | S skip' => slice_from step skip' a'
      end
  end.

Definition slice_step {A} (step : nat) (a : list A) : list A :=
  slice_from step 0 a.

(** Lines 48-50: the tick positions [adjust_xticks] leaves on the axis,
    given the positions [ax.get_xticks()] the axis had. The rotation of
    the labels is drawing and left out. *)
Definition adjust_xticks {A} (xticks : list A) (df : DataFrame) : result (list A) :=
  strike ← getitem df "strike";
  let num_strikes := length (unique strike) in
  if 20 <? num_strikes
  then Ok (slice_step (num_strikes / 20) xticks)
  else Ok xticks.

(** ** Wide sample data *)

(** A table of 45 strikes, 100 .. 144, one row each. *)
Definition wide_table : DataFrame :=
  mkDF provider_columns
       (map (fun i => option_record i (100 + Z.of_nat i) 1 1) (seq 0 45)).

(** A table whose openInterest is not a number in its second row. *)
Definition garbled_table : DataFrame :=
  setitem sample_calls "openInterest" [VInt 30; VStr "-"].




(** A provider whose chains for BAD lack the openInterest column. *)
Definition broken_provider : Provider := {|
  World := nat;
  Ticker := string;
  yf_Ticker := fun t w => (Ok t, w);
  yf_options := fun t w => (Ok ["2025-01-17"], S w);
  yf_option_chain := fun t e w =>
    (Ok (mkDF ["strike"] [(0, {[ "strike" := VInt 100 ]})], mkDF ["strike"] []), S w)
|}.

(** ** Views of a single chain *)

(** The order by strike alone. *)
Definition strike_asc (r1 r2 : nat * Row) : Prop :=
  ∃ k1 k2, cell r1.2 "strike" = VInt k1 ∧ cell r2.2 "strike" = VInt k2
           ∧ (k1 ≤ k2)%Z.

(** What the normalizer leaves in every table it returns for an
    expiration. *)
Definition stamped (expiration : string) (df : DataFrame) : Prop :=
  "option_type" ∈ columns df ∧ "expiration_date" ∈ columns df
  ∧ map fst (rows df) = seq 0 (length (rows df))
  ∧ ∀ r, r ∈ rows df →
      cell r.2 "expiration_date" = VStr expiration
      ∧ (cell r.2 "option_type" = VStr "Call" ∨ cell r.2 "option_type" = VStr "Put").

(** ** Requests *)

(** The events one fetch of a chain that is not stored leaves. *)
Definition fetch_events (ticker_symbol expiration : string) : list event :=
  [Enter_get_options_chain ticker_symbol expiration;
   Request_option_chain ticker_symbol expiration].

(** ** The page *)

(** The script of lines 99-140 runs from top to bottom each time the
    user touches a widget. What it keeps between runs is
    [st.session_state] and the stores of the cached functions; the
    widgets hand it the user's input. *)

(** The values the script keeps under the keys of [st.session_state]. *)
Inductive session_value :=
| SNone
| SBool (b : bool)
| SStr (s : string)
| SFrame (df : DataFrame).

(** What the script puts on the page. The data of the download button
    is the table whose CSV text, without the index, is offered; a figure
    is the table it draws. *)
Inductive element :=
| Title (body : string)
| Text_input (label : string)
| Selectbox (label : string) (options : list string)
| Button (label : string)
| Success (body : string)
| Download_button (label : string) (data : DataFrame) (file_name mime : string)
| Pyplot (fig : DataFrame)
| Error (body : string)
| Warning (body : string).

(** The input of one run: the text of the input box, upper-cased; the
    positions picked in the two select boxes; whether the button was
    clicked. *)
Record Inputs := mkInputs {
  ticker_text : string;
  expiry_pick : nat;
  fetch_clicked : bool;
  plot_pick : nat
}.

(** An exception that ends a run: one raised by the functions above, or
    one of the script's own accesses. *)
Inductive script_exn :=
| Raised (e : exn)
| AttributeError (attribute : string)
| ValueError.

Inductive outcome (A : Type) :=
| Done (a : A)
| Failed (e : script_exn).
Arguments Done {A} a.
Arguments Failed {A} e.

Definition plot_options : list string :=
  ["Change in Open Interest vs Strike Price"; "Volume vs Strike Price";
   "Open Interest Sorted by Expiry"].

Section Page.
Context `{P : Provider}.

Record Page := mkPage {
  page_app : AppState;
  page_session : gmap string session_value;
  page_screen : list element
}.

Definition Script (A : Type) : Type := Page -> outcome A * Page.

#[global] Instance Script_ret : MRet Script := fun A a p => (Done a, p).

#[global] Instance Script_bind : MBind Script :=
  fun A B k m p => match m p with
                   | (Done a, p') => k a p'
                   | (Failed e, p') => (Failed e, p')
                   end.

Definition fail {A} (e : script_exn) : Script A := fun p => (Failed e, p).

(** An [st.] call that puts an element on the page. *)
Definition show (el : element) : Script () :=
  fun p => (Done (), mkPage (page_app p) (page_session p) (page_screen p ++ [el])).

(** A call of one of the cached functions. *)
Definition call {A} (m : M AppState A) : Script A :=
  fun p => match m (page_app p) with
           | (Ok a, s) => (Done a, mkPage s (page_session p) (page_screen p))
           | (Raise e, s) => (Failed (Raised e), mkPage s (page_session p) (page_screen p))
           end.

Definition get_session : Script (gmap string session_value) :=
  fun p => (Done (page_session p), p).

(** [st.session_state[key] = v] *)
Definition session_set (key : string) (v : session_value) : Script () :=
  fun p => (Done (), mkPage (page_app p) (<[key := v]> (page_session p)) (page_screen p)).

(** [st.session_state[key]] *)
Definition session_getitem (key : string) : Script session_value :=
  ss ← get_session;
  match ss !! key with
  | Some v => mret v
  | None => fail (Raised (KeyError key))
  end.

(** The truth value of what is kept under a key. *)
Definition truthy (v : session_value) : Script bool :=
  match v with
  | SNone => mret false
  | SBool b => mret b
  | SStr s => mret (negb (bool_decide (s = "")))
  | SFrame _ => fail ValueError
  end.

(** [v != s] for a string [s], as the condition of an [if]. *)
Definition differs (v : session_value) (s : string) : Script bool :=
  match v with
  | SStr s' => mret (negb (bool_decide (s' = s)))
  | SFrame _ => fail ValueError
  | _ => mret true
  end.

(** [v.empty] *)
Definition attr_empty (v : session_value) : Script (DataFrame * bool) :=
  match v with
  | SFrame df => mret (df, empty df)
  | _ => fail (AttributeError "empty")
  end.

(** [st.selectbox(label, options)]: the option at the position the user
    picked; the widget offers the options and nothing else. *)
Definition selectbox (label : string) (options : list string) (pick : nat) : Script string :=
  show (Selectbox label options);;
  mret (nth (pick `min` (length options - 1)) options "").

(** [plot_container.pyplot(plot(options_data))]: the table the plot
    function is handed is the object kept in the session, so what the
    function writes to it is kept there. *)
Definition pyplot (plot : M DataFrame DataFrame) (options_data : DataFrame) : Script () :=
  fun p =>
    match plot options_data with
    | (Ok fig, df') =>
        (Done (), mkPage (page_app p) (<["options_data" := SFrame df']> (page_session p))
                         (page_screen p ++ [Pyplot fig]))
    | (Raise e, df') =>
        (Failed (Raised e),
         mkPage (page_app p) (<["options_data" := SFrame df']> (page_session p))
                (page_screen p))
    end.

(** Lines 109-111. *)
Definition reset_if_changed (selected_expiry : string) : Script () :=
  ss ← get_session;
  changed ← (if bool_decide (ss !! "options_data" = None) then mret true
             else differs (default SNone (ss !! "selected_expiry")) selected_expiry);
  if changed : bool then
    session_set "options_data" SNone;;
    session_set "data_fetched" (SBool false)
  else mret ().

(** Lines 113-116. *)
Definition fetch_if_clicked (clicked : bool) (ticker_symbol selected_expiry : string)
    : Script () :=
  show (Button "Fetch Options Data");;
  if clicked then
    df ← call (get_options_chain ticker_symbol selected_expiry);
    session_set "options_data" (SFrame df);;
    session_set "data_fetched" (SBool true);;
    session_set "selected_expiry" (SStr selected_expiry)
  else mret ().

(** Lines 125-136. *)
Definition show_plot (options_data : DataFrame) (pick : nat) : Script () :=
  plot_choice ← selectbox "Choose a bar plot to display:" plot_options pick;
  if decide (plot_choice = "Change in Open Interest vs Strike Price")
  then pyplot plot_change_in_open_interest options_data
  else if decide (plot_choice = "Volume vs Strike Price")
  then pyplot plot_volume options_data
  else if decide (plot_choice = "Open Interest Sorted by Expiry")
  then pyplot plot_open_interest_sorted options_data
  else mret ().

(** Lines 118-138. *)
Definition display (ticker_symbol : string) (pick : nat) : Script () :=
  ss ← get_session;
  fetched ← truthy (default (SBool false) (ss !! "data_fetched"));
  if fetched : bool then
    v ← session_getitem "options_data";
    '(options_data, is_empty) ← attr_empty v;
    if negb is_empty then
      show (Success "Data fetched successfully!");;
      show (Download_button "Download CSV" options_data
              (ticker_symbol ++ "_options.csv") "text/csv");;
      show_plot options_data pick
    else show (Error "No options data found.")
  else mret ().

(** Lines 99-140, the script. *)
Definition script (inp : Inputs) : Script () :=
  show (Title "Optimized Options Chain Dashboard");;
  show (Text_input "Enter a US Stock Symbol (e.g., AAPL, TSLA, MSFT):");;
  let ticker_symbol := ticker_text inp in
  if bool_decide (ticker_symbol = "") then mret ()
  else
    valid_dates ← call (get_valid_expirations ticker_symbol);
    match valid_dates with
    | [] => show (Warning "No valid expiration dates found.")
    | _ :: _ =>
        selected_expiry ← selectbox "Select an Expiration Date:" valid_dates
                            (expiry_pick inp);
        reset_if_changed selected_expiry;;
        fetch_if_clicked (fetch_clicked inp) ticker_symbol selected_expiry;;
        display ticker_symbol (plot_pick inp)
    end.

(** One run: the page is drawn anew. *)
Definition rerun (inp : Inputs) (p : Page) : outcome () * Page :=
  script inp (mkPage (page_app p) (page_session p) []).

(** A browser session: a fresh page, then any number of runs. *)
Definition first_page (w : World) : Page := mkPage (session_start w) ∅ [].

Definition visit (inps : list Inputs) (p : Page) : Page :=
  foldl (fun p inp => (rerun inp p).2) p inps.

Definition visited (p : Page) : Prop :=
  ∃ w inps, p = visit inps (first_page w).

(** What the script keeps in the session: under data_fetched a truth
    value, under selected_expiry a string, under options_data nothing or
    a table, and a table that is not empty once data_fetched is true. *)
Definition session_ok (ss : gmap string session_value) : Prop :=
  (ss !! "data_fetched" = None ∨ ∃ b, ss !! "data_fetched" = Some (SBool b))
  ∧ (ss !! "selected_expiry" = None ∨ ∃ e, ss !! "selected_expiry" = Some (SStr e))
  ∧ (ss !! "options_data" = None ∨ ss !! "options_data" = Some SNone
     ∨ ∃ df, ss !! "options_data" = Some (SFrame df) ∧ empty df = false)
  ∧ (ss !! "data_fetched" = Some (SBool true) →
     ∃ df, ss !! "options_data" = Some (SFrame df) ∧ empty df = false).

End Page.

Section PageSteps.
Context `{P : Provider}.

(** The expiration the select box returns. *)
Definition picked (valid_dates : list string) (pick : nat) : string :=
  nth (pick `min` (length valid_dates - 1)) valid_dates "".

(** The plot function behind the option picked in the second select
    box. *)
Definition chosen_plot (pick : nat) : M DataFrame DataFrame :=
  match pick with
  | 0 => plot_change_in_open_interest
  | 1 => plot_volume
  | _ => plot_open_interest_sorted
  end.

(** The condition of line 109 on a session that keeps a string, if
    anything, under selected_expiry. *)
Definition expiry_changed (selected_expiry : string) (ss : gmap string session_value)
    : bool :=
  match ss !! "options_data", ss !! "selected_expiry" with
  | None, _ => true
  | Some _, Some (SStr e) => negb (bool_decide (e = selected_expiry))
  | Some _, _ => true
  end.

(** The session after lines 109-111. *)
Definition after_reset (selected_expiry : string) (ss : gmap string session_value)
    : gmap string session_value :=
  if expiry_changed selected_expiry ss
  then <["data_fetched" := SBool false]> (<["options_data" := SNone]> ss)
  else ss.

(** The session after lines 114-116. *)
Definition after_fetch (selected_expiry : string) (df : DataFrame)
    (ss : gmap string session_value) : gmap string session_value :=
  <["selected_expiry" := SStr selected_expiry]>
    (<["data_fetched" := SBool true]> (<["options_data" := SFrame df]> ss)).

(** A page as a browser session leaves it. *)
Definition page_ok (p : Page) : Prop :=
  reachable (page_app p) ∧ session_ok (page_session p).

End PageSteps.

(** A provider with the same expiration for two tickers and a chain of
    its own for each. *)
Definition two_ticker_provider : Provider := {|
  World := nat;
  Ticker := string;
  yf_Ticker := fun t w => (Ok t, w);
  yf_options := fun t w => (Ok ["2025-02-21"], S w);
  yf_option_chain := fun t e w =>
    if decide (t = "AAPL") then (Ok (sample_calls, sample_puts), S w)
    else (Ok (quiet_calls, sample_puts), S w)
|}.

(** The widgets a run draws before it gets to the data, for the valid
    dates it found. *)
Definition widgets (valid_dates : list string) : list element :=
  [Title "Optimized Options Chain Dashboard";
   Text_input "Enter a US Stock Symbol (e.g., AAPL, TSLA, MSFT):";
   Selectbox "Select an Expiration Date:" valid_dates;
   Button "Fetch Options Data"].

(** * Properties *)

(** ** Tables *)

Lemma normalize_rows_eq calls puts expiration :
  rows (normalize calls puts expiration)
  = zip (seq 0 (length (rows calls) + length (rows puts)))
        (map (tagged "Call" expiration) (map snd (rows calls))
         ++ map (tagged "Put" expiration) (map snd (rows puts))).
Proof.
  unfold normalize, concat, setitem_scalar, tagged. simpl.
  rewrite !length_map.
  generalize (length (rows calls) + length (rows puts))%nat.
  generalize 0%nat.
  rewrite map_app, !map_map. simpl.
  generalize (rows puts). induction (rows calls) as [|r l IH]; simpl.
  - intros l. induction l as [|r l IH]; intros n [|m]; simpl; [done..|].
    by rewrite IH.
  - intros l' n [|m]; simpl; [done|]. by rewrite IH.
Qed.

Lemma elem_of_add_column cs c k : k ∈ add_column cs c ↔ k ∈ cs ∨ k = c.
Proof.
  unfold add_column. destruct (decide (c ∈ cs)); set_solver.
Qed.

Lemma getitem_Ok df c :
  c ∈ columns df → getitem df c = Ok (map (fun r => cell r.2 c) (rows df)).
Proof. intros H. unfold getitem. by rewrite decide_True. Qed.

Lemma getitem_inv df c s :
  getitem df c = Ok s →
  c ∈ columns df ∧ s = map (fun r => cell r.2 c) (rows df).
Proof. unfold getitem. case_decide; naive_solver. Qed.

Lemma lookup_zip_seq {A} (l : list A) n i x :
  l !! i = Some x → length l ≤ n → zip (seq 0 n) l !! i = Some (i, x).
Proof.
  intros Hi Hn. rewrite lookup_zip_with, lookup_seq_lt.
  - simpl. by rewrite Hi.
  - apply lookup_lt_Some in Hi. lia.
Qed.

Lemma tagged_option_type ty e r : cell (tagged ty e r) "option_type" = VStr ty.
Proof. unfold cell, tagged. by simplify_map_eq. Qed.

Lemma tagged_expiration_date ty e r : cell (tagged ty e r) "expiration_date" = VStr e.
Proof. unfold cell, tagged. by simplify_map_eq. Qed.

Lemma tagged_other ty e r k :
  k ≠ "option_type" → k ≠ "expiration_date" → tagged ty e r !! k = r !! k.
Proof. intros. unfold tagged. by simplify_map_eq. Qed.

Lemma normalize_columns calls puts expiration k :
  k ∈ columns (normalize calls puts expiration)
  ↔ k ∈ columns calls ∨ k ∈ columns puts
    ∨ k = "option_type" ∨ k = "expiration_date".
Proof.
  unfold normalize, concat, setitem_scalar. simpl.
  rewrite !elem_of_add_column, elem_of_app, list_elem_of_filter.
  rewrite !elem_of_add_column.
  destruct (decide (k ∈ columns calls)), (decide (k = "option_type"));
    intuition.
Qed.

Lemma mask_rows_filter {A} (Q : A → Prop) `{!∀ x, Decision (Q x)} (l : list A) :
  mask_rows l (map (fun x => bool_decide (Q x)) l) = filter Q l.
Proof.
  induction l as [|x l IH]; simpl; [done|].
  rewrite filter_cons, IH.
  destruct (decide (Q x)) as [Hq|Hq].
  - by rewrite bool_decide_eq_true_2.
  - by rewrite bool_decide_eq_false_2.
Qed.

(** The steps of [plot_change_in_open_interest], with the table each
    one leaves behind. *)
Lemma plot_change_in_open_interest_eq df :
  plot_change_in_open_interest df =
  match (if decide ("prev_openInterest" ∈ columns df) then Ok df
         else match groupby_shift df "strike" "openInterest" (VInt 0) with
              | Ok shifted => Ok (setitem df "prev_openInterest" shifted)
              | Raise x => Raise x
              end) with
  | Raise x => (Raise x, df)
  | Ok df1 =>
      match getitem df1 "openInterest" with
      | Raise x => (Raise x, df1)
      | Ok oi =>
          match getitem df1 "prev_openInterest" with
          | Raise x => (Raise x, df1)
          | Ok prev =>
              match series_sub oi prev with
              | Raise x => (Raise x, df1)
              | Ok change =>
                  (nonZeroChanges (setitem df1 "change_in_OI" change),
                   setitem df1 "change_in_OI" change)
              end
          end
      end
  end.
Proof.
  unfold plot_change_in_open_interest, mbind, M_bind, get_df, lift, put_df.
  destruct (decide ("prev_openInterest" ∈ columns df)); simpl.
  - unfold mbind, M_bind. simpl.
    destruct (getitem df "openInterest") as [oi|]; [|done].
    destruct (getitem df "prev_openInterest") as [prev|]; [|done].
    by destruct (series_sub oi prev).
  - unfold mbind, M_bind. simpl.
    destruct (groupby_shift df "strike" "openInterest" (VInt 0)) as [sh|]; [|done].
    simpl.
    destruct (getitem (setitem df "prev_openInterest" sh) "openInterest")
      as [oi|]; [|done].
    destruct (getitem (setitem df "prev_openInterest" sh) "prev_openInterest")
      as [prev|]; [|done].
    by destruct (series_sub oi prev).
Qed.

(** C9. On a table that has the column change_in_OI, the view of line 59
    holds exactly the rows whose change_in_OI is not 0, in table order,
    under the columns of the table; it is what
    [plot_change_in_open_interest] hands to the plot. *)
Theorem nonZeroChanges_exact (df : DataFrame) :
  "change_in_OI" ∈ columns df →
  ∃ v, nonZeroChanges df = Ok v
       ∧ columns v = columns df
       ∧ rows v = filter (fun r => cell r.2 "change_in_OI" ≠ VInt 0) (rows df)
       ∧ ∀ df0 v' df', plot_change_in_open_interest df0 = (Ok v', df') →
                       nonZeroChanges df' = Ok v'.
Proof.
  intros Hcol. unfold nonZeroChanges at 1. rewrite (getitem_Ok _ _ Hcol). simpl.
  eexists. split; [done|]. split; [done|]. split.
  - simpl. unfold series_ne0. rewrite map_map.
    apply (mask_rows_filter (fun r : nat * Row => cell r.2 "change_in_OI" ≠ VInt 0)).
  - intros df0 v' df'. rewrite plot_change_in_open_interest_eq.
    repeat match goal with
      | |- context [match ?x with Ok _ => _ | Raise _ => _ end] =>
          destruct x; try done
      end.
    all: by intros [= Hv <-].
Qed.

(** *** What the plot functions do to their argument *)

Lemma differ_only_on_refl cs df : differ_only_on cs df df.
Proof.
  split.
  - exists []. rewrite app_nil_r. split; [done|]. by intros ? ?%elem_of_nil.
  - induction (rows df); constructor; auto.
Qed.

Lemma differ_only_on_trans cs1 cs2 cs df1 df2 df3 :
  cs1 ⊆ cs → cs2 ⊆ cs →
  differ_only_on cs1 df1 df2 → differ_only_on cs2 df2 df3 →
  differ_only_on cs df1 df3.
Proof.
  intros H1 H2 [(a1 & Hc1 & Ha1) Hr1] [(a2 & Hc2 & Ha2) Hr2]. split.
  - exists (a1 ++ a2). rewrite Hc2, Hc1, app_assoc. split; [done|].
    intros k [?|?]%elem_of_app; auto.
  - eapply Forall2_trans; [|done..].
    intros r1 r2 r3 [Hl1 Hk1] [Hl2 Hk2]. split; [congruence|].
    intros k Hk. rewrite Hk2, Hk1; [done|..]; intros ?; apply Hk; auto.
Qed.

Lemma differ_only_on_setitem df c s :
  length s = length (rows df) → differ_only_on [c] df (setitem df c s).
Proof.
  intros Hlen. split.
  - simpl. unfold add_column. destruct (decide (c ∈ columns df)).
    + exists []. rewrite app_nil_r. split; [done|]. by intros ? ?%elem_of_nil.
    + by exists [c].
  - simpl. revert s Hlen. induction (rows df) as [|r l IH]; intros [|v s] Hlen;
      simpl in *; try done; try (by constructor).
    constructor; [|apply IH; lia].
    split; [done|]. intros k Hk. simpl. apply lookup_insert_ne.
    intros ->. apply Hk. by left.
Qed.

Lemma length_getitem df c s : getitem df c = Ok s → length s = length (rows df).
Proof. intros [_ ->]%getitem_inv. by rewrite length_map. Qed.

Lemma length_group_shift_indexer labels :
  ∀ ii m, length (group_shift_indexer labels ii m) = length labels.
Proof.
  induction labels as [|lab labels IH]; intros ii m; simpl; [done|].
  destruct lab; simpl; by rewrite IH.
Qed.

Lemma length_groupby_shift df by_ col fill s :
  groupby_shift df by_ col fill = Ok s → length s = length (rows df).
Proof.
  unfold groupby_shift, mbind, result_bind.
  destruct (getitem df by_) as [keys|] eqn:Hk; [|done].
  destruct (decide (col ∈ columns df)); [|done].
  destruct (getitem df col) as [vals|]; [|done].
  intros [= <-]. unfold take_fill.
  rewrite length_map, length_group_shift_indexer.
  by apply length_getitem in Hk.
Qed.

Lemma length_series_sub a :
  ∀ b c, series_sub a b = Ok c → length a = length b → length c = length a.
Proof.
  induction a as [|x a IH]; intros [|y b] c; simpl; try by intros [= <-].
  unfold mbind, result_bind.
  destruct (value_sub x y); [|done].
  destruct (series_sub a b) as [c'|] eqn:Hc; [|done].
  intros [= <-] Hlen. simpl. f_equal. apply (IH b); [done|lia].
Qed.


(** What [plot_change_in_open_interest] leaves in its argument: under the
    guard of line 55 only change_in_OI is written. *)
Lemma plot_change_in_open_interest_frame df :
  differ_only_on ["prev_openInterest"; "change_in_OI"] df
    (plot_change_in_open_interest df).2
  ∧ ("prev_openInterest" ∈ columns df →
     differ_only_on ["change_in_OI"] df (plot_change_in_open_interest df).2).
Proof.
  rewrite plot_change_in_open_interest_eq.
  assert (Hstep : ∀ df1 cs, "change_in_OI" ∈ cs → differ_only_on cs df df1 →
    differ_only_on cs df
      (match getitem df1 "openInterest" with
       | Raise x => (Raise x, df1)
       | Ok oi =>
           match getitem df1 "prev_openInterest" with
           | Raise x => (Raise x, df1)
           | Ok prev =>
               match series_sub oi prev with
               | Raise x => (Raise x, df1)
               | Ok change =>
                   (nonZeroChanges (setitem df1 "change_in_OI" change),
                    setitem df1 "change_in_OI" change)
               end
           end
       end).2).
  { intros df1 cs Hcs Hd.
    destruct (getitem df1 "openInterest") as [oi|] eqn:Hoi; [|done].
    destruct (getitem df1 "prev_openInterest") as [prev|] eqn:Hprev; [|done].
    destruct (series_sub oi prev) as [change|] eqn:Hch; [|done].
    simpl. apply length_getitem in Hoi, Hprev.
    apply length_series_sub in Hch; [|congruence].
    eapply (differ_only_on_trans cs ["change_in_OI"]); [done| |done|].
    - by intros k ->%list_elem_of_singleton.
    - apply differ_only_on_setitem. congruence. }
  destruct (decide ("prev_openInterest" ∈ columns df)) as [Hin|Hin].
  - split; [|intros _]; apply Hstep; try apply differ_only_on_refl; set_solver.
  - split; [|done].
    destruct (groupby_shift df "strike" "openInterest" (VInt 0)) as [sh|] eqn:Hsh.
    + apply Hstep; [set_solver|].
      eapply (differ_only_on_trans ["prev_openInterest"] []);
        [set_solver|set_solver| |apply differ_only_on_refl].
      apply differ_only_on_setitem. by eapply length_groupby_shift.
    + apply differ_only_on_refl.
Qed.

Lemma setitem_setitem_same df c s : setitem (setitem df c s) c s = setitem df c s.
Proof.
  unfold setitem. simpl. f_equal.
  - unfold add_column at 1. rewrite decide_True; [done|].
    apply elem_of_add_column. by right.
  - revert s. induction (rows df) as [|r l IH]; intros [|v s]; simpl; try done.
    by rewrite insert_insert_eq, IH.
Qed.

Lemma getitem_setitem_ne df c s k x :
  k ≠ c → length s = length (rows df) →
  getitem df k = Ok x → getitem (setitem df c s) k = Ok x.
Proof.
  intros Hne Hlen [Hk ->]%getitem_inv.
  rewrite getitem_Ok by (apply elem_of_add_column; by left).
  f_equal. simpl. revert s Hlen.
  induction (rows df) as [|r l IH]; intros [|v s] Hlen; simpl in *; try done.
  rewrite IH by lia. f_equal. unfold cell. by rewrite lookup_insert_ne.
Qed.

Lemma getitem_setitem_eq df c s :
  length s = length (rows df) → getitem (setitem df c s) c = Ok s.
Proof.
  intros Hlen. rewrite getitem_Ok by (apply elem_of_add_column; by right).
  f_equal. simpl. revert s Hlen.
  induction (rows df) as [|r l IH]; intros [|v s] Hlen; simpl in *; try done.
  rewrite IH by lia. f_equal. unfold cell. by rewrite lookup_insert_eq.
Qed.

(** Run again on the table it has written to, the function finds the
    columns it left and returns the same view without changing more. *)
Lemma plot_change_in_open_interest_again df v df' :
  plot_change_in_open_interest df = (Ok v, df') →
  "prev_openInterest" ∈ columns df' ∧ "change_in_OI" ∈ columns df'
  ∧ plot_change_in_open_interest df' = (Ok v, df').
Proof.
  rewrite plot_change_in_open_interest_eq.
  set (r1 := if decide ("prev_openInterest" ∈ columns df) then Ok df else _).
  destruct r1 as [df1|] eqn:Hr1; [|done].
  destruct (getitem df1 "openInterest") as [oi|] eqn:Hoi; [|done].
  destruct (getitem df1 "prev_openInterest") as [prev|] eqn:Hprev; [|done].
  destruct (series_sub oi prev) as [change|] eqn:Hch; [|done].
  intros [= Hv <-].
  assert (Hlen : length change = length (rows df1)).
  { apply length_getitem in Hoi, Hprev.
    apply length_series_sub in Hch; congruence. }
  assert (Hin : "prev_openInterest" ∈ columns (setitem df1 "change_in_OI" change)).
  { apply elem_of_add_column. left. by apply getitem_inv in Hprev as [? _]. }
  split; [done|]. split; [apply elem_of_add_column; by right|].
  rewrite plot_change_in_open_interest_eq, decide_True by done.
  erewrite getitem_setitem_ne; [|done|done|done].
  erewrite getitem_setitem_ne; [|done|done|done].
  by rewrite Hch, setitem_setitem_same, Hv.
Qed.

(** C5, as the code has it. [plot_volume] and [plot_open_interest_sorted]
    leave the table they are given as it was.
    [plot_change_in_open_interest] writes to the table it is given: it
    adds the column prev_openInterest when the table lacks it and the
    column change_in_OI, and leaves every other cell, the rows, their
    order and their labels as they were; run again on that table it
    returns the same view and changes nothing more. *)
Theorem plot_functions_frame (df : DataFrame) :
  (plot_volume df).2 = df
  ∧ (plot_open_interest_sorted df).2 = df
  ∧ differ_only_on ["prev_openInterest"; "change_in_OI"] df
      (plot_change_in_open_interest df).2
  ∧ ("prev_openInterest" ∈ columns df →
     differ_only_on ["change_in_OI"] df (plot_change_in_open_interest df).2)
  ∧ (∀ v df', plot_change_in_open_interest df = (Ok v, df') →
       "prev_openInterest" ∈ columns df' ∧ "change_in_OI" ∈ columns df'
       ∧ plot_change_in_open_interest df' = (Ok v, df')).
Proof.
  split; [|split; [|split; [|split]]].
  - unfold plot_volume, mbind, M_bind, get_df, lift. simpl.
    destruct (getitem df "volume") as [vol|]; [|done].
    by destruct (series_gt0 vol).
  - unfold plot_open_interest_sorted, mbind, M_bind, get_df, lift. simpl.
    destruct (getitem df "openInterest") as [oi|]; [|done].
    destruct (series_gt0 oi); [|done]. by destruct (sort_values _ _).
  - apply plot_change_in_open_interest_frame.
  - apply plot_change_in_open_interest_frame.
  - apply plot_change_in_open_interest_again.
Qed.

(** C5, as stated, fails: on the sample chain
    [plot_change_in_open_interest] leaves two more columns in the table
    it was given. *)
Lemma plot_change_in_open_interest_mutates :
  columns (plot_change_in_open_interest sample_chain).2
  = columns sample_chain ++ ["prev_openInterest"; "change_in_OI"]
  ∧ (plot_change_in_open_interest sample_chain).2 ≠ sample_chain.
Proof.
  assert (Hcols : columns (plot_change_in_open_interest sample_chain).2
                  = columns sample_chain ++ ["prev_openInterest"; "change_in_OI"])
    by (vm_compute; reflexivity).
  split; [done|]. intros Heq. rewrite Heq in Hcols.
  vm_compute in Hcols. discriminate.
Qed.

(** *** The shift within strike groups *)








Lemma chain_table_inv df :
  chain_table df = true →
  "strike" ∈ columns df ∧ "openInterest" ∈ columns df
  ∧ "volume" ∈ columns df ∧ "expiration_date" ∈ columns df
  ∧ Forall (fun r : nat * Row =>
              is_int (cell r.2 "strike") ∧ is_int (cell r.2 "openInterest")
              ∧ is_int (cell r.2 "volume") ∧ is_str (cell r.2 "expiration_date"))
           (rows df).
Proof.
  unfold chain_table, chain_columns. simpl.
  rewrite !andb_true_iff, !bool_decide_eq_true, forallb_forall.
  intros [(? & ? & ? & ? & ? & _) Hrows].
  repeat split; try done.
  apply Forall_forall. intros r Hr%list_elem_of_In%Hrows.
  unfold chain_row in Hr. rewrite !andb_true_iff in Hr.
  destruct Hr as [[[[? ?] ?] _] ?]. by repeat split; apply Is_true_true.
Qed.

Lemma Forall_column (Q : value → Prop) (l : list (nat * Row)) c :
  Forall (fun r => Q (cell r.2 c)) l →
  Forall Q (map (fun r : nat * Row => cell r.2 c) l).
Proof. intros H. by apply Forall_map. Qed.



(** *** Stable insertion sort *)

Section StableSort.
Context {A : Type} (cmp : A → A → comparison).

Lemma insert_sorted_perm x l : insert_sorted cmp x l ≡ₚ x :: l.
Proof.
  induction l as [|y l IH]; simpl; [done|].
  destruct (cmp x y); try done.
  rewrite IH. apply Permutation_swap.
Qed.

Lemma stable_sort_perm l : stable_sort cmp l ≡ₚ l.
Proof.
  induction l as [|x l IH]; simpl; [done|].
  by rewrite insert_sorted_perm, IH.
Qed.

(** Rows that the order does not tell apart keep their places: the rows
    of a class [Q] whose members never compare as [Gt] come out in the
    order they went in. *)
Lemma insert_sorted_filter (Q : A → Prop) `{!∀ x, Decision (Q x)} x l :
  (∀ y, y ∈ l → Q x → Q y → cmp x y ≠ Gt) →
  filter Q (insert_sorted cmp x l) = filter Q (x :: l).
Proof.
  induction l as [|y l IH]; intros Hq; simpl; [done|].
  assert (IH' : filter Q (insert_sorted cmp x l) = filter Q (x :: l)).
  { apply IH. intros z Hz. apply Hq. by right. }
  destruct (cmp x y) eqn:Hxy; try done.
  rewrite (filter_cons _ y), IH', !filter_cons.
  destruct (decide (Q y)) as [Hy|Hy]; [|done].
  destruct (decide (Q x)) as [Hx|Hx]; [|done].
  exfalso. apply (Hq y); [by left|done..].
Qed.

Lemma stable_sort_filter (Q : A → Prop) `{!∀ x, Decision (Q x)} l :
  (∀ x y, Q x → Q y → cmp x y ≠ Gt) →
  filter Q (stable_sort cmp l) = filter Q l.
Proof.
  intros Hq. induction l as [|x l IH]; simpl; [done|].
  rewrite insert_sorted_filter by auto.
  by rewrite !filter_cons, IH.
Qed.

Context (D : A → Prop) (R : A → A → Prop).
Hypothesis cmp_le : ∀ x y, D x → D y → cmp x y ≠ Gt → R x y.
Hypothesis cmp_gt : ∀ x y, D x → D y → cmp x y = Gt → R y x.
Hypothesis R_trans : ∀ x y z, R x y → R y z → R x z.

Lemma insert_sorted_sorted x l :
  D x → Forall D l → StronglySorted R l →
  StronglySorted R (insert_sorted cmp x l).
Proof.
  intros Hx. induction l as [|y l IH]; intros Hl Hs; simpl.
  - repeat constructor.
  - apply Forall_cons in Hl as [Hy Hl].
    apply StronglySorted_inv in Hs as [Hs Hyl].
    assert (Hle : cmp x y ≠ Gt → StronglySorted R (x :: y :: l)).
    { intros Hc. constructor; [by constructor|].
      constructor; [by apply cmp_le|].
      eapply Forall_impl; [done|]. intros z Hz.
      eapply R_trans; [|done]. by apply cmp_le. }
    destruct (cmp x y) eqn:Hxy; try by apply Hle.
    constructor; [by apply IH|].
    rewrite insert_sorted_perm. constructor; [|done]. by apply cmp_gt.
Qed.

Lemma stable_sort_sorted l :
  Forall D l → StronglySorted R (stable_sort cmp l).
Proof.
  induction l as [|x l IH]; intros Hl; simpl; [constructor|].
  apply Forall_cons in Hl as [Hx Hl].
  apply insert_sorted_sorted; [done| |by apply IH].
  by rewrite stable_sort_perm.
Qed.

End StableSort.

(** *** The sorted view *)

Lemma ascii_compare_refl a : Ascii.compare a a = Eq.
Proof. unfold Ascii.compare. apply N.compare_refl. Qed.

Lemma string_compare_refl e : String.compare e e = Eq.
Proof. induction e as [|a e IH]; simpl; [done|]. by rewrite ascii_compare_refl. Qed.

Lemma string_compare_lt_trans e1 :
  ∀ e2 e3, String.compare e1 e2 = Lt → String.compare e2 e3 = Lt →
           String.compare e1 e3 = Lt.
Proof.
  induction e1 as [|a1 e1 IH]; intros [|a2 e2] [|a3 e3]; simpl; try done.
  destruct (Ascii.compare a1 a2) eqn:H12; try done;
    destruct (Ascii.compare a2 a3) eqn:H23; try done.
  - apply Ascii.compare_eq_iff in H12 as ->. rewrite H23. apply IH.
  - apply Ascii.compare_eq_iff in H12 as ->. by rewrite H23.
  - apply Ascii.compare_eq_iff in H23 as <-. by rewrite H12.
  - intros _ _. unfold Ascii.compare in *.
    rewrite N.compare_lt_iff in H12, H23.
    assert (H13 : (Ascii.N_of_ascii a1 < Ascii.N_of_ascii a3)%N) by lia.
    apply N.compare_lt_iff in H13. by rewrite H13.
Qed.

Lemma key_compare_refl asc v : key_compare asc v v = Eq.
Proof.
  destruct v as [z|e|], asc; simpl;
    auto using Z.compare_refl, string_compare_refl.
Qed.

Lemma rows_compare_same by_ (r1 r2 : Row) :
  Forall (fun ca : string * bool => cell r1 ca.1 = cell r2 ca.1) by_ →
  rows_compare by_ r1 r2 = Eq.
Proof.
  induction 1 as [|[c asc] by_ Hc _ IH]; simpl; [done|].
  simpl in Hc. by rewrite Hc, key_compare_refl.
Qed.

Lemma sorted_view_compare (r1 r2 : Row) e1 e2 k1 k2 :
  cell r1 "expiration_date" = VStr e1 → cell r2 "expiration_date" = VStr e2 →
  cell r1 "strike" = VInt k1 → cell r2 "strike" = VInt k2 →
  rows_compare sorted_view_keys r1 r2
  = match String.compare e2 e1 with
    | Eq => Z.compare k1 k2
    | o => o
    end.
Proof.
  intros He1 He2 Hk1 Hk2. simpl. rewrite He1, He2, Hk1, Hk2. simpl.
  destruct (String.compare e2 e1); [|done..]. by destruct (k1 ?= k2)%Z.
Qed.

Lemma expiry_desc_strike_asc_trans r1 r2 r3 :
  expiry_desc_strike_asc r1 r2 → expiry_desc_strike_asc r2 r3 →
  expiry_desc_strike_asc r1 r3.
Proof.
  intros (e1 & e2 & k1 & k2 & He1 & He2 & Hk1 & Hk2 & H12)
         (e2' & e3 & k2' & k3 & He2' & He3 & Hk2' & Hk3 & H23).
  rewrite He2 in He2'. rewrite Hk2 in Hk2'.
  injection He2' as <-. injection Hk2' as <-.
  exists e1, e3, k1, k3. repeat split; try done.
  destruct H12 as [H12|[-> H12]], H23 as [H23|[-> H23]].
  - left. by eapply string_compare_lt_trans.
  - by left.
  - by left.
  - right. split; [done|lia].
Qed.

Lemma mask_rows_map {A} (f : A → bool) (l : list A) :
  mask_rows l (map f l) = filter (fun x => f x) l.
Proof.
  induction l as [|x l IH]; simpl; [done|].
  rewrite filter_cons, IH. destruct (f x) eqn:Hf.
  - by rewrite decide_True.
  - rewrite decide_False; [done|]. by intros [].
Qed.

Lemma series_gt0_positive (s : list value) :
  Forall (fun v => is_int v) s → series_gt0 s = Ok (map positive s).
Proof.
  induction 1 as [|v s Hv _ IH]; simpl; [done|].
  destruct v; try done. by rewrite IH.
Qed.

(** C4. On a chain table, [plot_open_interest_sorted] hands to the plot
    the rows with openInterest > 0 and no others, each once, ordered by
    expiration_date descending and then strike ascending, the rows that
    agree on both keys in the order they have in the table. *)
Theorem open_interest_sorted_view (df : DataFrame) :
  chain_table df = true →
  ∃ v, plot_open_interest_sorted df = (Ok v, df)
       ∧ columns v = columns df
       ∧ rows v ≡ₚ filter (fun r => positive (cell r.2 "openInterest")) (rows df)
       ∧ StronglySorted expiry_desc_strike_asc (rows v)
       ∧ ∀ e k,
           filter (fun r => cell r.2 "expiration_date" = e ∧ cell r.2 "strike" = k)
                  (rows v)
           = filter (fun r => cell r.2 "expiration_date" = e ∧ cell r.2 "strike" = k)
                    (filter (fun r => positive (cell r.2 "openInterest")) (rows df)).
Proof.
  intros Hct.
  destruct (chain_table_inv df Hct) as (Hstrike & Hoi & _ & Hexp & Hrows).
  set (kept := filter (fun r : nat * Row => positive (cell r.2 "openInterest")) (rows df)).
  set (cmp := fun r1 r2 : nat * Row => rows_compare sorted_view_keys r1.2 r2.2).
  assert (Hkept : Forall (fun r : nat * Row =>
            is_str (cell r.2 "expiration_date") ∧ is_int (cell r.2 "strike")) kept).
  { apply Forall_forall. intros r [_ Hr]%list_elem_of_filter.
    rewrite Forall_forall in Hrows. by destruct (Hrows r Hr) as (?&_&_&?). }
  assert (Hrun : plot_open_interest_sorted df
                 = (Ok (mkDF (columns df) (stable_sort cmp kept)), df)).
  { unfold plot_open_interest_sorted, mbind, M_bind, get_df, lift. simpl.
    rewrite (getitem_Ok _ _ Hoi).
    rewrite series_gt0_positive.
    2: { apply Forall_column. eapply Forall_impl; [done|]. by intros r (_&?&_). }
    unfold getitem_mask. rewrite map_map, (mask_rows_map (fun r => positive (cell r.2 "openInterest"))).
    fold kept. unfold sort_values, mbind, result_bind. simpl.
    by rewrite !getitem_Ok by done. }
  eexists. split; [done|]. simpl. split; [done|].
  split; [apply stable_sort_perm|]. split.
  - apply (stable_sort_sorted cmp
             (fun r : nat * Row => is_str (cell r.2 "expiration_date")
                                   ∧ is_int (cell r.2 "strike"))).
    + intros r1 r2 [He1 Hk1] [He2 Hk2] Hle.
      destruct (cell r1.2 "expiration_date") as [|e1|] eqn:E1; try done.
      destruct (cell r2.2 "expiration_date") as [|e2|] eqn:E2; try done.
      destruct (cell r1.2 "strike") as [k1| |] eqn:K1; try done.
      destruct (cell r2.2 "strike") as [k2| |] eqn:K2; try done.
      exists e1, e2, k1, k2. repeat split; try done.
      unfold cmp in Hle. rewrite (sorted_view_compare _ _ _ _ _ _ E1 E2 K1 K2) in Hle.
      destruct (String.compare e2 e1) eqn:Hc; [|by left|done].
      right. apply String.compare_eq_iff in Hc as ->. split; [done|].
      by apply Z.compare_le_iff.
    + intros r1 r2 [He1 Hk1] [He2 Hk2] Hgt.
      destruct (cell r1.2 "expiration_date") as [|e1|] eqn:E1; try done.
      destruct (cell r2.2 "expiration_date") as [|e2|] eqn:E2; try done.
      destruct (cell r1.2 "strike") as [k1| |] eqn:K1; try done.
      destruct (cell r2.2 "strike") as [k2| |] eqn:K2; try done.
      exists e2, e1, k2, k1. repeat split; try done.
      unfold cmp in Hgt. rewrite (sorted_view_compare _ _ _ _ _ _ E1 E2 K1 K2) in Hgt.
      destruct (String.compare e2 e1) eqn:Hc; [|done|].
      * right. apply String.compare_eq_iff in Hc as ->. split; [done|].
        apply Z.compare_gt_iff in Hgt. lia.
      * left. rewrite String.compare_antisym, Hc. done.
    + apply expiry_desc_strike_asc_trans.
    + done.
  - intros e k. apply stable_sort_filter.
    intros r1 r2 [He1 Hk1] [He2 Hk2]. unfold cmp.
    rewrite rows_compare_same; [done|].
    repeat constructor; simpl; congruence.
Qed.

(** ** The gateway *)

Section GatewayProperties.
Context `{P : Provider}.

#[local] Instance grows_refl : Reflexive grows.
Proof. intros s. by repeat split. Qed.

#[local] Instance grows_trans : Transitive grows.
Proof.
  intros s1 s2 s3 (?&?&?&?) (?&?&?&?).
  repeat split; etrans; eauto.
Qed.

Lemma get_all_expiration_dates_hit t s l :
  expirations_cache s !! t = Some l → get_all_expiration_dates t s = (Ok l, s).
Proof. intros H. unfold get_all_expiration_dates, cache_data. by rewrite H. Qed.

Lemma get_options_chain_hit t e s df :
  chain_cache s !! (t, e) = Some df → get_options_chain t e s = (Ok df, s).
Proof. intros H. unfold get_options_chain, cache_data. by rewrite H. Qed.

Lemma get_valid_expirations_hit t s vs :
  valid_cache s !! t = Some vs → get_valid_expirations t s = (Ok vs, s).
Proof. intros H. unfold get_valid_expirations, cache_data. by rewrite H. Qed.

(** A miss of [get_all_expiration_dates]. When [yf.Ticker] raises, the
    exception leaves the function and nothing is stored; otherwise one
    request goes out, and the answer, or the empty list when the request
    raised, is returned and stored. *)
Lemma get_all_expiration_dates_miss t s :
  expirations_cache s !! t = None →
  get_all_expiration_dates t s
  = match yf_Ticker t (world s) with
    | (Raise x, w) =>
        (Raise x, mkState w (expirations_cache s) (chain_cache s) (valid_cache s)
                    (trace s ++ [Enter_get_all_expiration_dates t]))
    | (Ok h, w) =>
        let l := match (yf_options h w).1 with Ok l => l | Raise _ => [] end in
        (Ok l, mkState (yf_options h w).2 (<[t := l]> (expirations_cache s))
                 (chain_cache s) (valid_cache s)
                 (trace s ++ [Enter_get_all_expiration_dates t; Request_options t]))
    end.
Proof.
  intros H. unfold get_all_expiration_dates, cache_data. rewrite H.
  unfold get_all_expiration_dates_wrapped, mbind, M_bind, provider, log. simpl.
  destruct (yf_Ticker t (world s)) as [[h|x] w]; simpl; [|done].
  unfold try_except, request. simpl.
  destruct (yf_options h w) as [[l|x] w']; simpl; by rewrite <- app_assoc.
Qed.

(** A miss of [get_options_chain]: as above, with the normalized chain
    for the answer and the empty table when the request raised. *)
Lemma get_options_chain_miss t e s :
  chain_cache s !! (t, e) = None →
  get_options_chain t e s
  = match yf_Ticker t (world s) with
    | (Raise x, w) =>
        (Raise x, mkState w (expirations_cache s) (chain_cache s) (valid_cache s)
                    (trace s ++ [Enter_get_options_chain t e]))
    | (Ok h, w) =>
        let df := match (yf_option_chain h e w).1 with
                  | Ok cp => normalize cp.1 cp.2 e
                  | Raise _ => DataFrame_new
                  end in
        (Ok df, mkState (yf_option_chain h e w).2 (expirations_cache s)
                  (<[(t, e) := df]> (chain_cache s)) (valid_cache s)
                  (trace s ++ [Enter_get_options_chain t e; Request_option_chain t e]))
    end.
Proof.
  intros H. unfold get_options_chain, cache_data. rewrite H.
  unfold get_options_chain_wrapped, mbind, M_bind, provider, log. simpl.
  destruct (yf_Ticker t (world s)) as [[h|x] w]; simpl; [|done].
  unfold try_except, request, mbind, M_bind. simpl.
  destruct (yf_option_chain h e w) as [[cp|x] w']; simpl; by rewrite <- app_assoc.
Qed.

Lemma get_all_expiration_dates_spec t s r s' :
  get_all_expiration_dates t s = (r, s') →
  expirations_cache s ⊆ expirations_cache s'
  ∧ chain_cache s' = chain_cache s
  ∧ valid_cache s' = valid_cache s
  ∧ (∃ evs, trace s' = trace s ++ evs ∧ chain_requests evs = [])
  ∧ ∀ l, r = Ok l → expirations_cache s' !! t = Some l.
Proof.
  destruct (expirations_cache s !! t) as [l|] eqn:H.
  - rewrite (get_all_expiration_dates_hit _ _ _ H). intros [= <- <-].
    repeat split; try done.
    + exists []. by rewrite app_nil_r.
    + by intros ? [= <-].
  - rewrite (get_all_expiration_dates_miss _ _ H).
    destruct (yf_Ticker t (world s)) as [[h|x] w]; cbv zeta; intros [= <- <-]; simpl.
    + split; [by apply insert_subseteq|]. repeat split.
      * by eexists.
      * intros ? [= <-]. by rewrite lookup_insert_eq.
    + split; [done|]. split; [done|]. split; [done|].
      split; [by eexists|by intros ? [=]].
Qed.

Lemma get_options_chain_spec t e s r s' :
  get_options_chain t e s = (r, s') →
  chain_cache s ⊆ chain_cache s'
  ∧ expirations_cache s' = expirations_cache s
  ∧ valid_cache s' = valid_cache s
  ∧ (∃ evs, trace s' = trace s ++ evs
            ∧ chain_requests evs `sublist_of` [(t, e)])
  ∧ ∀ df, r = Ok df → chain_cache s' !! (t, e) = Some df.
Proof.
  destruct (chain_cache s !! (t, e)) as [df|] eqn:H.
  - rewrite (get_options_chain_hit _ _ _ _ H). intros [= <- <-].
    repeat split; try done.
    + exists []. rewrite app_nil_r. split; [done|]. apply sublist_nil_l.
    + by intros ? [= <-].
  - rewrite (get_options_chain_miss _ _ _ H).
    destruct (yf_Ticker t (world s)) as [[h|x] w]; cbv zeta; intros [= <- <-]; simpl.
    + split; [by apply insert_subseteq|]. repeat split.
      * eexists. split; [done|]. done.
      * intros ? [= <-]. by rewrite lookup_insert_eq.
    + split; [done|]. split; [done|]. split; [done|].
      split; [|by intros ? [=]].
      eexists. split; [done|]. apply sublist_nil_l.
Qed.

Lemma chain_valid_weaken (c c' : gmap (string * string) DataFrame) t e :
  c ⊆ c' → is_Some (c !! (t, e)) → chain_valid c' t e = chain_valid c t e.
Proof.
  intros Hsub [df Hdf]. unfold chain_valid.
  by rewrite (lookup_weaken _ _ _ _ Hdf Hsub), Hdf.
Qed.

(** The loop of [get_valid_expirations]: it fetches the candidates in
    order, touches only the chain store, and what it returns is the
    accumulator followed by the candidates whose stored chain passes the
    test. *)
Lemma valid_expirations_loop_spec t all :
  ∀ acc s r s',
    valid_expirations_loop t all acc s = (r, s') →
    expirations_cache s' = expirations_cache s
    ∧ valid_cache s' = valid_cache s
    ∧ chain_cache s ⊆ chain_cache s'
    ∧ (∃ evs, trace s' = trace s ++ evs
              ∧ chain_requests evs `sublist_of` map (pair t) all)
    ∧ ∀ vs, r = Ok vs →
        (∀ e, e ∈ all → is_Some (chain_cache s' !! (t, e)))
        ∧ vs = acc ++ filter (fun e => chain_valid (chain_cache s') t e) all.
Proof.
  induction all as [|e all IH]; intros acc s r s' Hrun; simpl in Hrun.
  - injection Hrun as <- <-. repeat split; try done.
    + exists []. by rewrite app_nil_r.
    + intros e He. by apply elem_of_nil in He.
    + injection H as <-. by rewrite filter_nil, app_nil_r.
  - unfold mbind, M_bind in Hrun.
    destruct (get_options_chain t e s) as [r1 s1] eqn:Hget.
    destruct (get_options_chain_spec _ _ _ _ _ Hget)
      as (Hsub & Hexp & Hval & (evs1 & Htr1 & Hreq1) & Hdf).
    assert (Hstop : chain_requests evs1 `sublist_of` map (pair t) (e :: all)).
    { etrans; [done|].
      change (map (pair t) (e :: all)) with ([(t, e)] ++ map (pair t) all).
      by apply sublist_inserts_r. }
    destruct r1 as [df|x].
    2: { injection Hrun as <- <-.
         split; [done|]. split; [done|]. split; [done|].
         split; [by exists evs1|by intros ? [=]]. }
    specialize (Hdf df eq_refl).
    unfold lift in Hrun.
    destruct (has_open_interest df) as [keep|x] eqn:Hkeep.
    + apply IH in Hrun as (Hexp' & Hval' & Hsub' & (evs2 & Htr2 & Hreq2) & Hres).
      split; [congruence|]. split; [congruence|].
      split; [by etrans|].
      split.
      { exists (evs1 ++ evs2). rewrite Htr2, Htr1, app_assoc. split; [done|].
        unfold chain_requests in *. rewrite omap_app.
        change (map (pair t) (e :: all)) with ([(t, e)] ++ map (pair t) all).
        by apply sublist_app. }
      intros vs ->. destruct (Hres _ eq_refl) as [Hall ->]. split.
      * intros e' [->|He']%elem_of_cons; [|by apply Hall].
        exists df. by eapply lookup_weaken.
      * assert (chain_valid (chain_cache s') t e = keep) as Hk.
        { unfold chain_valid.
          rewrite (lookup_weaken _ _ _ _ Hdf Hsub'), Hkeep. by destruct keep. }
        rewrite filter_cons. destruct keep.
        -- rewrite decide_True by (by rewrite Hk). by rewrite <- app_assoc.
        -- rewrite decide_False by (rewrite Hk; intros []). done.
    + injection Hrun as <- <-.
      split; [done|]. split; [done|]. split; [done|].
      split; [by exists evs1|].
      intros vs [=].
Qed.

Lemma filter_ext_elem {A} (Q1 Q2 : A → Prop)
    `{!∀ x, Decision (Q1 x), !∀ x, Decision (Q2 x)} (l : list A) :
  (∀ x, x ∈ l → Q1 x ↔ Q2 x) → filter Q1 l = filter Q2 l.
Proof.
  induction l as [|x l IH]; intros Hl; [done|].
  rewrite !filter_cons.
  rewrite IH by (intros y Hy; apply Hl; by right).
  destruct (decide (Q1 x)) as [H1|H1], (decide (Q2 x)) as [H2|H2]; try done.
  - exfalso. apply H2, Hl; [by left|done].
  - exfalso. apply H1, Hl; [by left|done].
Qed.

Lemma get_valid_expirations_wrapped_spec t s r s' :
  get_valid_expirations_wrapped t s = (r, s') →
  valid_cache s' = valid_cache s
  ∧ expirations_cache s ⊆ expirations_cache s'
  ∧ chain_cache s ⊆ chain_cache s'
  ∧ (∃ evs, trace s' = trace s ++ evs
            ∧ ∀ all, expirations_cache s' !! t = Some all →
                     chain_requests evs `sublist_of` map (pair t) all)
  ∧ ∀ vs, r = Ok vs →
      ∃ all, expirations_cache s' !! t = Some all
        ∧ (∀ e, e ∈ all → is_Some (chain_cache s' !! (t, e)))
        ∧ vs = filter (fun e => chain_valid (chain_cache s') t e) all.
Proof.
  unfold get_valid_expirations_wrapped, mbind, M_bind. intros Hrun.
  destruct (get_all_expiration_dates t s) as [r1 s1] eqn:Hget.
  destruct (get_all_expiration_dates_spec _ _ _ _ Hget)
    as (Hsub & Hch & Hval & (evs1 & Htr1 & Hreq1) & Hall).
  destruct r1 as [all|x].
  2: { injection Hrun as <- <-. split; [done|]. split; [done|].
       split; [by rewrite Hch|]. split; [|by intros ? [=]].
       exists evs1. split; [done|]. intros. rewrite Hreq1. apply sublist_nil_l. }
  specialize (Hall all eq_refl).
  apply valid_expirations_loop_spec in Hrun
    as (Hexp' & Hval' & Hsub' & (evs2 & Htr2 & Hreq2) & Hres).
  split; [congruence|]. split; [by rewrite Hexp'|].
  split; [by rewrite <- Hch|].
  split.
  - exists (evs1 ++ evs2). rewrite Htr2, Htr1, app_assoc. split; [done|].
    intros all'. rewrite Hexp', Hall. intros [= <-].
    unfold chain_requests in *. by rewrite omap_app, Hreq1.
  - intros vs Hvs. exists all. split; [congruence|]. by apply Hres.
Qed.

(** Entries of the gateway stores do not disturb a consistent store of
    valid expirations. *)
Lemma cache_consistent_grows s s' :
  cache_consistent s →
  expirations_cache s ⊆ expirations_cache s' →
  chain_cache s ⊆ chain_cache s' →
  valid_cache s' = valid_cache s →
  cache_consistent s'.
Proof.
  intros Hinv Hexp Hch Hval t vs Hvs. rewrite Hval in Hvs.
  destruct (Hinv t vs Hvs) as (all & Hall & Hcached & ->).
  exists all. split; [by eapply lookup_weaken|]. split.
  - intros e He. destruct (Hcached e He) as [df Hdf].
    exists df. by eapply lookup_weaken.
  - apply filter_ext_elem. intros e He.
    by rewrite (chain_valid_weaken _ _ t e Hch (Hcached e He)).
Qed.

(** What a call of [get_valid_expirations] does to the session. *)
Lemma get_valid_expirations_spec t s r s' :
  get_valid_expirations t s = (r, s') →
  grows s s'
  ∧ (∀ vs, r = Ok vs → valid_cache s' !! t = Some vs)
  ∧ (cache_consistent s →
     cache_consistent s'
     ∧ ∃ evs, trace s' = trace s ++ evs
              ∧ ∀ all, expirations_cache s' !! t = Some all →
                       chain_requests evs `sublist_of` map (pair t) all).
Proof.
  unfold get_valid_expirations, cache_data.
  destruct (valid_cache s !! t) as [vs|] eqn:Hhit.
  - intros [= <- <-]. split; [done|].
    split; [by intros ? [= <-]|].
    intros Hinv. split; [done|]. exists []. rewrite app_nil_r.
    split; [done|]. intros. apply sublist_nil_l.
  - set (s0 := (log (Enter_get_valid_expirations t) s).2).
    destruct (get_valid_expirations_wrapped t s0) as [r1 s1] eqn:Hrun.
    apply get_valid_expirations_wrapped_spec in Hrun
      as (Hval & Hexp & Hch & (evs & Htr & Hreq) & Hres).
    assert (Hgrow : grows s s1).
    { repeat split; [done|done|by rewrite Hval|].
      rewrite Htr. unfold s0. simpl. rewrite <- app_assoc. by apply prefix_app_r. }
    assert (Hinv1 : cache_consistent s → cache_consistent s1).
    { intros Hinv. by apply (cache_consistent_grows s). }
    assert (Htrace : ∃ evs', trace s1 = trace s ++ evs'
              ∧ ∀ all, expirations_cache s1 !! t = Some all →
                       chain_requests evs' `sublist_of` map (pair t) all).
    { exists (Enter_get_valid_expirations t :: evs).
      rewrite Htr. unfold s0. simpl. by rewrite <- app_assoc. }
    destruct r1 as [vs|x]; intros [= <- <-].
    + destruct (Hres vs eq_refl) as (all & Hall & Hcached & ->).
      split; [|split].
      * destruct Hgrow as (?&?&?&?). repeat split; simpl; try done.
        etrans; [done|]. apply insert_subseteq. by rewrite Hval.
      * intros ? [= <-]. simpl. by rewrite lookup_insert_eq.
      * intros Hinv. split.
        -- intros t' vs'. simpl. destruct (decide (t = t')) as [<-|Hne].
           ++ rewrite lookup_insert_eq. intros [= <-]. by exists all.
           ++ rewrite lookup_insert_ne by done. by apply (Hinv1 Hinv).
        -- destruct Htrace as (evs' & ? & ?). by exists evs'.
    + split; [done|]. split; [by intros ? [=]|].
      intros Hinv. split; [by apply Hinv1|done].
Qed.

Lemma perform_grows a s : grows s (perform a s).
Proof.
  destruct a as [t|t e|t|w]; simpl.
  - destruct (get_all_expiration_dates t s) as [r s'] eqn:Hrun.
    apply get_all_expiration_dates_spec in Hrun
      as (? & Hch & Hval & (evs & Htr & _) & _). simpl.
    repeat split; [done|by rewrite Hch|by rewrite Hval|].
    rewrite Htr. by apply prefix_app_r.
  - destruct (get_options_chain t e s) as [r s'] eqn:Hrun.
    apply get_options_chain_spec in Hrun
      as (? & Hexp & Hval & (evs & Htr & _) & _). simpl.
    repeat split; [by rewrite Hexp|done|by rewrite Hval|].
    rewrite Htr. by apply prefix_app_r.
  - destruct (get_valid_expirations t s) as [r s'] eqn:Hrun.
    by apply get_valid_expirations_spec in Hrun as [? _].
  - done.
Qed.

Lemma perform_consistent a s : cache_consistent s → cache_consistent (perform a s).
Proof.
  intros Hinv. destruct a as [t|t e|t|w]; simpl.
  - destruct (get_all_expiration_dates t s) as [r s'] eqn:Hrun.
    apply get_all_expiration_dates_spec in Hrun as (? & Hch & Hval & _). simpl.
    apply (cache_consistent_grows s); try done. by rewrite Hch.
  - destruct (get_options_chain t e s) as [r s'] eqn:Hrun.
    apply get_options_chain_spec in Hrun as (? & Hexp & Hval & _). simpl.
    apply (cache_consistent_grows s); try done. by rewrite Hexp.
  - destruct (get_valid_expirations t s) as [r s'] eqn:Hrun.
    apply get_valid_expirations_spec in Hrun as (_ & _ & Hc).
    by apply Hc.
  - done.
Qed.

Lemma run_snoc acts a s : run (acts ++ [a]) s = perform a (run acts s).
Proof. unfold run. by rewrite foldl_app. Qed.

Lemma run_app acts1 acts2 s : run (acts1 ++ acts2) s = run acts2 (run acts1 s).
Proof. unfold run. by rewrite foldl_app. Qed.

Lemma run_grows acts s : grows s (run acts s).
Proof.
  induction acts as [|a acts IH] using rev_ind; [done|].
  rewrite run_snoc. etrans; [done|]. apply perform_grows.
Qed.

Lemma reachable_consistent s : reachable s → cache_consistent s.
Proof.
  intros (w & acts & ->).
  induction acts as [|a acts IH] using rev_ind.
  - intros t vs. simpl. by rewrite lookup_empty.
  - rewrite run_snoc. by apply perform_consistent.
Qed.

Lemma reachable_perform a s : reachable s → reachable (perform a s).
Proof.
  intros (w & acts & ->). exists w, (acts ++ [a]). by rewrite run_snoc.
Qed.

Lemma reachable_run acts s : reachable s → reachable (run acts s).
Proof.
  intros (w & acts0 & ->). exists w, (acts0 ++ acts). by rewrite run_app.
Qed.

(** *** What the stored chains are *)

(** What holds of the empty table and of every normalized answer of the
    provider holds of every stored chain of a session. *)
Lemma get_options_chain_keeps (Q : string → string → DataFrame → Prop) t e s :
  (∀ t e, Q t e DataFrame_new) →
  (∀ t e h w calls puts w',
     yf_option_chain h e w = (Ok (calls, puts), w') → Q t e (normalize calls puts e)) →
  (∀ t e df, chain_cache s !! (t, e) = Some df → Q t e df) →
  ∀ t' e' df, chain_cache (get_options_chain t e s).2 !! (t', e') = Some df → Q t' e' df.
Proof.
  intros Hnew Hnorm Hinv t' e' df.
  destruct (chain_cache s !! (t, e)) as [df0|] eqn:Hhit.
  - rewrite (get_options_chain_hit _ _ _ _ Hhit). apply Hinv.
  - rewrite (get_options_chain_miss _ _ _ Hhit).
    destruct (yf_Ticker t (world s)) as [[h|x] w]; cbv zeta; simpl; [|apply Hinv].
    destruct (decide ((t, e) = (t', e'))) as [[= <- <-]|Hne].
    + rewrite lookup_insert_eq. intros [= <-].
      destruct (yf_option_chain h e w) as [[[calls puts]|x] w'] eqn:Hio; simpl; eauto.
    + rewrite lookup_insert_ne by done. apply Hinv.
Qed.

Lemma valid_expirations_loop_keeps (Q : string → string → DataFrame → Prop) t all :
  (∀ t e, Q t e DataFrame_new) →
  (∀ t e h w calls puts w',
     yf_option_chain h e w = (Ok (calls, puts), w') → Q t e (normalize calls puts e)) →
  ∀ acc s,
    (∀ t e df, chain_cache s !! (t, e) = Some df → Q t e df) →
    ∀ t' e' df, chain_cache (valid_expirations_loop t all acc s).2 !! (t', e') = Some df →
                Q t' e' df.
Proof.
  intros Hnew Hnorm. induction all as [|e all IH]; intros acc s Hinv; simpl; [done|].
  unfold mbind, M_bind.
  assert (Hinv1 := get_options_chain_keeps Q t e s Hnew Hnorm Hinv).
  destruct (get_options_chain t e s) as [[df|x] s1]; [|done].
  unfold lift. destruct (has_open_interest df); [|done].
  by apply IH.
Qed.

Lemma get_valid_expirations_keeps (Q : string → string → DataFrame → Prop) t s :
  (∀ t e, Q t e DataFrame_new) →
  (∀ t e h w calls puts w',
     yf_option_chain h e w = (Ok (calls, puts), w') → Q t e (normalize calls puts e)) →
  (∀ t e df, chain_cache s !! (t, e) = Some df → Q t e df) →
  ∀ t' e' df, chain_cache (get_valid_expirations t s).2 !! (t', e') = Some df → Q t' e' df.
Proof.
  intros Hnew Hnorm Hinv. unfold get_valid_expirations, cache_data.
  destruct (valid_cache s !! t) as [vs|]; [done|].
  set (s0 := (log (Enter_get_valid_expirations t) s).2).
  assert (Hw : ∀ t' e' df,
            chain_cache (get_valid_expirations_wrapped t s0).2 !! (t', e') = Some df →
            Q t' e' df).
  { unfold get_valid_expirations_wrapped, mbind, M_bind.
    destruct (get_all_expiration_dates t s0) as [r1 s1] eqn:Hget.
    apply get_all_expiration_dates_spec in Hget as (_ & Hch & _).
    assert (Hinv1 : ∀ t e df, chain_cache s1 !! (t, e) = Some df → Q t e df).
    { intros t' e' df. rewrite Hch. apply Hinv. }
    destruct r1 as [l|x]; [|done].
    by apply valid_expirations_loop_keeps. }
  by destruct (get_valid_expirations_wrapped t s0) as [[vs|x] s1].
Qed.

Lemma reachable_chain_cache (Q : string → string → DataFrame → Prop) s :
  (∀ t e, Q t e DataFrame_new) →
  (∀ t e h w calls puts w',
     yf_option_chain h e w = (Ok (calls, puts), w') → Q t e (normalize calls puts e)) →
  reachable s →
  ∀ t e df, chain_cache s !! (t, e) = Some df → Q t e df.
Proof.
  intros Hnew Hnorm (w & acts & ->).
  induction acts as [|a acts IH] using rev_ind.
  - intros t e df. simpl. by rewrite lookup_empty.
  - rewrite run_snoc. set (s := run acts (session_start w)) in *.
    destruct a as [t|t e|t|w']; simpl.
    + destruct (get_all_expiration_dates t s) as [r s'] eqn:Hrun.
      apply get_all_expiration_dates_spec in Hrun as (_ & Hch & _). simpl.
      intros t' e' df. rewrite Hch. apply IH.
    + by apply get_options_chain_keeps.
    + by apply get_valid_expirations_keeps.
    + done.
Qed.

(** *** The test of line 41 *)

Lemma has_open_interest_true df :
  has_open_interest df = Ok true
  ↔ empty df = false
    ∧ ∃ oi total, getitem df "openInterest" = Ok oi
                  ∧ series_sum oi = Ok total ∧ (0 < total)%Z.
Proof.
  unfold has_open_interest. destruct (empty df); simpl.
  { split; [done|]. by intros [? _]. }
  unfold mbind at 1, result_bind at 1.
  destruct (getitem df "openInterest") as [oi|x]; simpl.
  2: { split; [done|by intros (_ & ? & ? & [=] & _)]. }
  unfold mbind at 1, result_bind at 1.
  destruct (series_sum oi) as [total|x] eqn:Hsum; simpl.
  2: { split; [done|]. intros (_ & ? & ? & [= <-] & ? & _). congruence. }
  split.
  - intros [= H%Z.ltb_lt]. eauto 10.
  - intros (_ & oi' & total' & [= <-] & Hsum' & H%Z.ltb_lt).
    replace total with total' by congruence. by rewrite H.
Qed.

Lemma has_open_interest_empty df : empty df = true → has_open_interest df = Ok false.
Proof. intros H. unfold has_open_interest. by rewrite H. Qed.












(** *** Calls that return *)






(** C8. In a session, when [get_valid_expirations] returns, its result is
    a subsequence, in order, of what [get_all_expiration_dates] returns;
    and the chain requests it sent went out in that order. *)
Theorem valid_expirations_sublist (t : string) (s s' : AppState) (vs : list string) :
  reachable s →
  get_valid_expirations t s = (Ok vs, s') →
  ∃ all, get_all_expiration_dates t s' = (Ok all, s')
    ∧ vs `sublist_of` all
    ∧ ∃ evs, trace s' = trace s ++ evs
             ∧ chain_requests evs `sublist_of` map (pair t) all.
Proof.
  intros Hreach Hrun.
  apply get_valid_expirations_spec in Hrun as (_ & Hstored & Hc).
  destruct (Hc (reachable_consistent _ Hreach)) as [Hinv (evs & Htr & Hreq)].
  destruct (Hinv t vs (Hstored vs eq_refl)) as (all & Hall & Hcached & Hvs).
  exists all. split; [by apply get_all_expiration_dates_hit|].
  split; [rewrite Hvs; apply sublist_filter|].
  exists evs. split; [done|]. by apply Hreq.
Qed.

(** C3. The normalizer of [get_options_chain] returns a table of exactly
    c + p rows, labelled 0 .. c+p-1: row i < c is call row i tagged Call,
    row c + i is put row i tagged Put, every row is stamped with the
    expiration, and every other cell is the one supplied; so calls come
    before puts, each side in its order, nothing dropped or duplicated.
    That table is what [get_options_chain] returns when it has to ask the
    provider, [yf.Ticker] builds the handle and the provider answers. *)
Theorem normalize_conserves_rows (calls puts : DataFrame) (expiration : string) :
  let df := normalize calls puts expiration in
  let c := length (rows calls) in
  let p := length (rows puts) in
  length (rows df) = (c + p)%nat
  ∧ getitem df "option_type"
    = Ok (replicate c (VStr "Call") ++ replicate p (VStr "Put"))
  ∧ getitem df "expiration_date" = Ok (replicate (c + p) (VStr expiration))
  ∧ (∀ i r, rows calls !! i = Some r →
       ∃ r', rows df !! i = Some (i, r')
             ∧ cell r' "option_type" = VStr "Call"
             ∧ cell r' "expiration_date" = VStr expiration
             ∧ ∀ k, k ≠ "option_type" → k ≠ "expiration_date" → r' !! k = r.2 !! k)
  ∧ (∀ i r, rows puts !! i = Some r →
       ∃ r', rows df !! (c + i)%nat = Some ((c + i)%nat, r')
             ∧ cell r' "option_type" = VStr "Put"
             ∧ cell r' "expiration_date" = VStr expiration
             ∧ ∀ k, k ≠ "option_type" → k ≠ "expiration_date" → r' !! k = r.2 !! k)
  ∧ (∀ t s h w w', chain_cache s !! (t, expiration) = None →
       yf_Ticker t (world s) = (Ok h, w) →
       yf_option_chain h expiration w = (Ok (calls, puts), w') →
       ∃ s', get_options_chain t expiration s = (Ok df, s')).
Proof.
  intros df c p.
  assert (Hrows := normalize_rows_eq calls puts expiration).
  fold df c p in Hrows.
  set (body := map (tagged "Call" expiration) (map snd (rows calls))
               ++ map (tagged "Put" expiration) (map snd (rows puts))) in *.
  assert (Hlen : length body = (c + p)%nat).
  { unfold body. by rewrite length_app, !length_map. }
  assert (Hsnd : map snd (rows df) = body).
  { rewrite Hrows. apply snd_zip. rewrite length_seq. lia. }
  assert (Hcol : ∀ k, map (fun r : nat * Row => cell r.2 k) (rows df)
                      = map (fun r => cell r k) body).
  { intros k. rewrite <- Hsnd, map_map. done. }
  assert (Hrep : ∀ (ty : string) (l : list Row),
             map (fun r => cell r "option_type") (map (tagged ty expiration) l)
             = replicate (length l) (VStr ty)).
  { intros ty l. induction l as [|? ? IH]; simpl; [done|].
    by rewrite tagged_option_type, IH. }
  assert (Hexp : ∀ (ty : string) (l : list Row),
             map (fun r => cell r "expiration_date") (map (tagged ty expiration) l)
             = replicate (length l) (VStr expiration)).
  { intros ty l. induction l as [|? ? IH]; simpl; [done|].
    by rewrite tagged_expiration_date, IH. }
  split; [|split; [|split; [|split; [|split]]]].
  6: { intros t s h w w' Hmiss Hh Hans.
       rewrite (get_options_chain_miss t expiration s Hmiss), Hh, Hans. by eexists. }
  - rewrite <- Hlen, <- Hsnd. by rewrite length_map.
  - rewrite getitem_Ok by (apply normalize_columns; naive_solver).
    f_equal. rewrite Hcol. unfold body. rewrite map_app, !Hrep.
    by rewrite !length_map.
  - rewrite getitem_Ok by (apply normalize_columns; naive_solver).
    f_equal. rewrite Hcol. unfold body.
    rewrite map_app, !Hexp, !length_map. fold c p.
    by rewrite replicate_add.
  - intros i r Hi. exists (tagged "Call" expiration r.2).
    split; [|auto using tagged_option_type, tagged_expiration_date, tagged_other].
    rewrite Hrows. apply lookup_zip_seq; [|lia].
    unfold body. rewrite lookup_app_l.
    + by rewrite !list_lookup_fmap, Hi.
    + rewrite !length_map. by apply lookup_lt_Some in Hi.
  - intros i r Hi. exists (tagged "Put" expiration r.2).
    split; [|auto using tagged_option_type, tagged_expiration_date, tagged_other].
    rewrite Hrows. apply lookup_zip_seq; [|lia].
    unfold body. rewrite lookup_app_r; rewrite !length_map; [|fold c; lia].
    fold c. replace (c + i - c) with i by lia.
    by rewrite !list_lookup_fmap, Hi.
Qed.

(** C6. A failure of the provider inside the [try] is met softly:
    when [yf.Ticker] has built its handle, neither gateway function
    raises, and the call whose request raises returns the empty list,
    for [get_all_expiration_dates], or the empty table, for
    [get_options_chain]. A failure of [yf.Ticker] itself, which stands
    before the [try], leaves the function as the exception it is, and
    nothing is stored. *)
Theorem gateway_fails_softly_inside_try (t e : string) (s : AppState) :
  (∀ h w, yf_Ticker t (world s) = (Ok h, w) →
     (∃ l s', get_all_expiration_dates t s = (Ok l, s'))
     ∧ (∃ df s', get_options_chain t e s = (Ok df, s'))
     ∧ (∀ x w', expirations_cache s !! t = None →
                yf_options h w = (Raise x, w') →
                ∃ s', get_all_expiration_dates t s = (Ok [], s'))
     ∧ (∀ x w', chain_cache s !! (t, e) = None →
                yf_option_chain h e w = (Raise x, w') →
                ∃ s', get_options_chain t e s = (Ok DataFrame_new, s')
                      ∧ empty DataFrame_new = true))
  ∧ (∀ x w, yf_Ticker t (world s) = (Raise x, w) →
       (expirations_cache s !! t = None →
        ∃ s', get_all_expiration_dates t s = (Raise x, s')
              ∧ expirations_cache s' !! t = None)
       ∧ (chain_cache s !! (t, e) = None →
          ∃ s', get_options_chain t e s = (Raise x, s')
                ∧ chain_cache s' !! (t, e) = None)).
Proof.
  split.
  - intros h w Hh. split; [|split; [|split]].
    + destruct (expirations_cache s !! t) as [l|] eqn:Hhit.
      * rewrite (get_all_expiration_dates_hit _ _ _ Hhit). eauto.
      * rewrite (get_all_expiration_dates_miss _ _ Hhit), Hh. eauto.
    + destruct (chain_cache s !! (t, e)) as [df|] eqn:Hhit.
      * rewrite (get_options_chain_hit _ _ _ _ Hhit). eauto.
      * rewrite (get_options_chain_miss _ _ _ Hhit), Hh. eauto.
    + intros x w' Hmiss Hfail.
      rewrite (get_all_expiration_dates_miss _ _ Hmiss), Hh, Hfail. eauto.
    + intros x w' Hmiss Hfail.
      rewrite (get_options_chain_miss _ _ _ Hmiss), Hh, Hfail. eauto.
  - intros x w Hx. split; intros Hmiss.
    + rewrite (get_all_expiration_dates_miss _ _ Hmiss), Hx. eauto.
    + rewrite (get_options_chain_miss _ _ _ Hmiss), Hx. eauto.
Qed.

(** *** Each key computed once *)

Lemma stored_grows s s' ev : grows s s' → stored s ev → stored s' ev.
Proof.
  intros (Hexp & Hch & Hval & _).
  destruct ev; simpl; intros [v Hv]; exists v; by eapply lookup_weaken.
Qed.

Lemma fresh_refl s : fresh s s.
Proof.
  split; [done|]. exists []. rewrite app_nil_r. split; [done|].
  split; [by intros ev ?%elem_of_nil|]. split; [apply NoDup_nil_2|].
  by intros ev ?%elem_of_nil.
Qed.

Lemma fresh_trans s1 s2 s3 : fresh s1 s2 → fresh s2 s3 → fresh s1 s3.
Proof.
  intros [Hg1 (evs1 & Htr1 & Hno1 & Hnd1 & Hst1)] [Hg2 (evs2 & Htr2 & Hno2 & Hnd2 & Hst2)].
  split; [by etrans|]. exists (evs1 ++ evs2).
  split; [by rewrite Htr2, Htr1, app_assoc|].
  unfold requests in *. rewrite filter_app.
  split; [|split].
  - intros ev [Hin|Hin]%elem_of_app; [by apply Hno1|].
    intros Hst. apply (Hno2 ev Hin). by eapply stored_grows.
  - apply NoDup_app. split; [done|]. split; [|done].
    intros ev Hin1 Hin2. apply list_elem_of_filter in Hin2 as [_ Hin2].
    apply (Hno2 ev Hin2). by apply Hst1.
  - intros ev [Hin|Hin]%elem_of_app; [|by apply Hst2].
    eapply stored_grows; [done|]. by apply Hst1.
Qed.

Lemma get_all_expiration_dates_adds_fresh t s : fresh s (get_all_expiration_dates t s).2.
Proof.
  assert (Hgrow := perform_grows (Call_get_all_expiration_dates t) s).
  simpl in Hgrow. split; [done|]. clear Hgrow.
  destruct (expirations_cache s !! t) as [l|] eqn:Hhit.
  { rewrite (get_all_expiration_dates_hit _ _ _ Hhit).
    by destruct (fresh_refl s) as [_ ?]. }
  rewrite (get_all_expiration_dates_miss _ _ Hhit).
  destruct (yf_Ticker t (world s)) as [[h|x] w]; cbv zeta; simpl.
  - eexists. split; [done|]. unfold requests.
    rewrite !filter_cons, filter_nil. simpl. split; [|split].
    + intros ev Hin.
      assert (ev = Enter_get_all_expiration_dates t ∨ ev = Request_options t)
        as [-> | ->] by set_solver.
      all: simpl; rewrite Hhit; by intros [? ?].
    + apply NoDup_singleton.
    + intros ev ->%list_elem_of_singleton. simpl. by rewrite lookup_insert_eq.
  - eexists. split; [done|]. unfold requests.
    rewrite !filter_cons, filter_nil. simpl. split; [|split].
    + intros ev ->%list_elem_of_singleton. simpl. rewrite Hhit. by intros [? ?].
    + apply NoDup_nil_2.
    + by intros ev ?%elem_of_nil.
Qed.

Lemma get_options_chain_adds_fresh t e s : fresh s (get_options_chain t e s).2.
Proof.
  assert (Hgrow := perform_grows (Call_get_options_chain t e) s).
  simpl in Hgrow. split; [done|]. clear Hgrow.
  destruct (chain_cache s !! (t, e)) as [df|] eqn:Hhit.
  { rewrite (get_options_chain_hit _ _ _ _ Hhit).
    by destruct (fresh_refl s) as [_ ?]. }
  rewrite (get_options_chain_miss _ _ _ Hhit).
  destruct (yf_Ticker t (world s)) as [[h|x] w]; cbv zeta; simpl.
  - eexists. split; [done|]. unfold requests.
    rewrite !filter_cons, filter_nil. simpl. split; [|split].
    + intros ev Hin.
      assert (ev = Enter_get_options_chain t e ∨ ev = Request_option_chain t e)
        as [-> | ->] by set_solver.
      all: simpl; rewrite Hhit; by intros [? ?].
    + apply NoDup_singleton.
    + intros ev ->%list_elem_of_singleton. simpl. by rewrite lookup_insert_eq.
  - eexists. split; [done|]. unfold requests.
    rewrite !filter_cons, filter_nil. simpl. split; [|split].
    + intros ev ->%list_elem_of_singleton. simpl. rewrite Hhit. by intros [? ?].
    + apply NoDup_nil_2.
    + by intros ev ?%elem_of_nil.
Qed.

Lemma valid_expirations_loop_adds_fresh t all :
  ∀ acc s, fresh s (valid_expirations_loop t all acc s).2.
Proof.
  induction all as [|e all IH]; intros acc s; simpl; [apply fresh_refl|].
  unfold mbind, M_bind.
  assert (H1 := get_options_chain_adds_fresh t e s).
  destruct (get_options_chain t e s) as [[df|x] s1]; [|done].
  unfold lift. destruct (has_open_interest df) as [keep|x]; [|done].
  eapply fresh_trans; [done|]. apply IH.
Qed.

Lemma get_valid_expirations_adds_fresh t s : fresh s (get_valid_expirations t s).2.
Proof.
  unfold get_valid_expirations, cache_data.
  destruct (valid_cache s !! t) as [vs|] eqn:Hhit; [apply fresh_refl|].
  set (s0 := (log (Enter_get_valid_expirations t) s).2).
  assert (H0 : fresh s s0).
  { split; [repeat split; try done; by apply prefix_app_r|].
    exists [Enter_get_valid_expirations t]. split; [done|].
    unfold requests. rewrite filter_cons, filter_nil. simpl. split; [|split].
    - intros ev ->%list_elem_of_singleton. simpl. rewrite Hhit. by intros [? ?].
    - apply NoDup_nil_2.
    - by intros ev ?%elem_of_nil. }
  assert (H1 : fresh s0 (get_valid_expirations_wrapped t s0).2).
  { unfold get_valid_expirations_wrapped, mbind, M_bind.
    assert (H1 := get_all_expiration_dates_adds_fresh t s0).
    destruct (get_all_expiration_dates t s0) as [[l|x] s1]; [|done].
    eapply fresh_trans; [done|]. apply valid_expirations_loop_adds_fresh. }
  destruct (get_valid_expirations_wrapped t s0) as [[vs|x] s1] eqn:Hrun;
    simpl in *; [|by eapply fresh_trans].
  eapply fresh_trans; [done|]. eapply fresh_trans; [done|].
  split.
  - repeat split; simpl; try done. apply insert_subseteq.
    apply get_valid_expirations_wrapped_spec in Hrun as (-> & _). done.
  - exists []. simpl. rewrite app_nil_r. split; [done|].
    split; [by intros ev ?%elem_of_nil|]. split; [apply NoDup_nil_2|].
    by intros ev ?%elem_of_nil.
Qed.

Lemma perform_fresh a s : fresh s (perform a s).
Proof.
  destruct a as [t|t e|t|w]; simpl.
  - apply get_all_expiration_dates_adds_fresh.
  - apply get_options_chain_adds_fresh.
  - apply get_valid_expirations_adds_fresh.
  - split; [done|]. exists []. simpl. rewrite app_nil_r. split; [done|].
    split; [by intros ev ?%elem_of_nil|]. split; [apply NoDup_nil_2|].
    by intros ev ?%elem_of_nil.
Qed.

Lemma run_fresh acts s : fresh s (run acts s).
Proof.
  induction acts as [|a acts IH] using rev_ind; [apply fresh_refl|].
  rewrite run_snoc. eapply fresh_trans; [done|]. apply perform_fresh.
Qed.

Lemma reachable_trace_once s : reachable s → trace_once s.
Proof.
  intros (w & acts & ->).
  destruct (run_fresh acts (session_start w)) as [_ (evs & Htr & _ & Hnd & Hst)].
  unfold trace_once. rewrite Htr. cbn [trace session_start app]. by split.
Qed.

(** C7. In a session, once a cached function has returned a value for a
    key, every later call with that key, whatever the session did in
    between, returns the same value and leaves the state as it is: no
    request goes out and the wrapped function is not entered. Whatever
    the session does from a state on, it enters a wrapped function, or
    sends a request, only for keys that have no value in the store at
    that state; and no request to the provider goes out twice. *)
Theorem cached_at_most_once (s : AppState) (acts : list action) :
  reachable s →
  (∀ t l s1, get_all_expiration_dates t s = (Ok l, s1) →
     get_all_expiration_dates t (run acts s1) = (Ok l, run acts s1))
  ∧ (∀ t e df s1, get_options_chain t e s = (Ok df, s1) →
       get_options_chain t e (run acts s1) = (Ok df, run acts s1))
  ∧ (∀ t vs s1, get_valid_expirations t s = (Ok vs, s1) →
       get_valid_expirations t (run acts s1) = (Ok vs, run acts s1))
  ∧ (∃ evs, trace (run acts s) = trace s ++ evs
            ∧ ∀ ev, ev ∈ evs → ¬ stored s ev)
  ∧ NoDup (requests (trace (run acts s))).
Proof.
  intros Hreach. split; [|split; [|split; [|split]]].
  - intros t l s1 Hrun.
    apply get_all_expiration_dates_spec in Hrun as (_ & _ & _ & _ & Hl).
    apply get_all_expiration_dates_hit.
    destruct (run_grows acts s1) as (Hsub & _). eapply lookup_weaken; [|done]. by apply Hl.
  - intros t e df s1 Hrun.
    apply get_options_chain_spec in Hrun as (_ & _ & _ & _ & Hdf).
    apply get_options_chain_hit.
    destruct (run_grows acts s1) as (_ & Hsub & _). eapply lookup_weaken; [|done]. by apply Hdf.
  - intros t vs s1 Hrun.
    apply get_valid_expirations_spec in Hrun as (_ & Hstored & _).
    apply get_valid_expirations_hit.
    destruct (run_grows acts s1) as (_ & _ & Hsub & _).
    eapply lookup_weaken; [|done]. by apply Hstored.
  - destruct (run_fresh acts s) as [_ (evs & Htr & Hno & _)]. by exists evs.
  - by apply reachable_trace_once, reachable_run.
Qed.

(** *** Fetches that come back empty *)

Lemma empty_normalize calls puts e :
  rows calls = [] → rows puts = [] → empty (normalize calls puts e) = true.
Proof.
  intros Hc Hp. unfold empty. rewrite normalize_rows_eq, Hc, Hp.
  by destruct (columns (normalize calls puts e)).
Qed.

Lemma valid_expirations_loop_empty t all :
  ∀ acc s, fetches_empty t all s = true →
    ∃ s', valid_expirations_loop t all acc s = (Ok acc, s').
Proof.
  induction all as [|e all IH]; intros acc s Hall; simpl in *; [by eexists|].
  unfold mbind, M_bind.
  destruct (get_options_chain t e s) as [[df|x] s1]; [|done].
  apply andb_true_iff in Hall as [Hempty Hrest].
  unfold lift. rewrite (has_open_interest_empty _ Hempty).
  by apply IH.
Qed.

(** C10. When the candidates of a ticker are listed and the fetch of
    every one of them, made in the order of the loop, returns an empty
    table, [get_valid_expirations] returns the empty list, and stores
    it; it does not raise. The test of line 41 answers False on any
    empty table without reading a column, although reading
    openInterest from the table of a failed fetch would raise. *)
Theorem valid_expirations_total_on_empty (t : string) (s s1 : AppState)
    (all : list string) :
  valid_cache s !! t = None →
  get_all_expiration_dates t (log (Enter_get_valid_expirations t) s).2 = (Ok all, s1) →
  fetches_empty t all s1 = true →
  (∃ s', get_valid_expirations t s = (Ok [], s') ∧ valid_cache s' !! t = Some [])
  ∧ (∀ acc, ∃ s', valid_expirations_loop t all acc s1 = (Ok acc, s'))
  ∧ (∀ df, empty df = true → has_open_interest df = Ok false)
  ∧ getitem DataFrame_new "openInterest" = Raise (KeyError "openInterest").
Proof.
  intros Hmiss Hlist Hall.
  split; [|split; [|split; [apply has_open_interest_empty|done]]].
  - unfold get_valid_expirations, cache_data. rewrite Hmiss.
    unfold get_valid_expirations_wrapped, mbind, M_bind. rewrite Hlist.
    destruct (valid_expirations_loop_empty t all [] s1 Hall) as [s2 ->].
    eexists. split; [done|]. simpl. by rewrite lookup_insert_eq.
  - intros acc. by apply valid_expirations_loop_empty.
Qed.

End GatewayProperties.

(** ** The properties on the sample data *)

(** The sample chain: calls at 100 and 110, then puts at 100, 90, 110. *)
Example sample_chain_columns :
  getitem sample_chain "strike"
    = Ok [VInt 100; VInt 110; VInt 100; VInt 90; VInt 110]
  ∧ getitem sample_chain "openInterest"
    = Ok [VInt 30; VInt 0; VInt 50; VInt 7; VInt 0]
  ∧ getitem sample_chain "option_type"
    = Ok [VStr "Call"; VStr "Call"; VStr "Put"; VStr "Put"; VStr "Put"]
  ∧ map fst (rows sample_chain) = [0; 1; 2; 3; 4].
Proof. by vm_compute. Qed.

(** Strike 100 comes first with openInterest 30 and again with 50: the
    first row gets 0 and 30, the second 30 and 20. The view drops the
    rows without change. *)
Example sample_chain_derived :
  let '(view, df) := plot_change_in_open_interest sample_chain in
  getitem df "prev_openInterest" = Ok [VInt 0; VInt 0; VInt 30; VInt 0; VInt 0]
  ∧ getitem df "change_in_OI" = Ok [VInt 30; VInt 0; VInt 20; VInt 7; VInt 0]
  ∧ (map fst ∘ rows) <$> view = Ok [0; 2; 3].
Proof. by vm_compute. Qed.

(** The later expiration comes first, and 90 before 100 within the
    earlier one. *)
Example two_expirations_sorted :
  let '(view, _) := plot_open_interest_sorted two_expirations in
  (map fst ∘ rows) <$> view = Ok [2; 1; 0]
  ∧ (fun v => getitem v "strike") <$> view = Ok (Ok [VInt 100; VInt 90; VInt 100]).
Proof. by vm_compute. Qed.

(** Of the two expirations of AAPL the first has no open interest. *)
Example sample_valid_expirations :
  (@get_valid_expirations sample_provider "AAPL" sample_session).1
  = Ok ["2025-02-21"].
Proof. by vm_compute. Qed.

(** Fetching one chain twice sends one request. *)
Example sample_fetch_twice :
  let '(r1, s1) := @get_options_chain sample_provider "AAPL" "2025-02-21" sample_session in
  let '(r2, s2) := @get_options_chain sample_provider "AAPL" "2025-02-21" s1 in
  r1 = r2 ∧ s1 = s2
  ∧ chain_requests (trace s2) = [("AAPL", "2025-02-21")].
Proof. by vm_compute. Qed.




(** C8 on the sample provider: AAPL from a fresh session. *)
Lemma valid_expirations_sublist_witness :
  let s' := (@get_valid_expirations sample_provider "AAPL" sample_session).2 in
  @reachable sample_provider sample_session
  ∧ @get_valid_expirations sample_provider "AAPL" sample_session
    = (Ok ["2025-02-21"], s')
  ∧ ∃ all, @get_all_expiration_dates sample_provider "AAPL" s' = (Ok all, s')
    ∧ ["2025-02-21"] `sublist_of` all
    ∧ ∃ evs, trace s' = trace sample_session ++ evs
             ∧ chain_requests evs `sublist_of` map (pair "AAPL") all.
Proof.
  intros s'.
  assert (Hreach : @reachable sample_provider sample_session)
    by (exists 0, []; reflexivity).
  assert (Hrun : @get_valid_expirations sample_provider "AAPL" sample_session
                 = (Ok ["2025-02-21"], s')) by (vm_compute; reflexivity).
  split; [exact Hreach|]. split; [exact Hrun|].
  exact (@valid_expirations_sublist sample_provider "AAPL" sample_session s'
           ["2025-02-21"] Hreach Hrun).
Defined.

(** C7 on the sample provider: a fresh session followed by the sample
    actions. *)
Lemma cached_at_most_once_witness :
  let acts := sample_actions in
  @reachable sample_provider sample_session
  ∧ (∀ t l s1, @get_all_expiration_dates sample_provider t sample_session = (Ok l, s1) →
       get_all_expiration_dates t (run acts s1) = (Ok l, run acts s1))
  ∧ (∀ t e df s1, @get_options_chain sample_provider t e sample_session = (Ok df, s1) →
       get_options_chain t e (run acts s1) = (Ok df, run acts s1))
  ∧ (∀ t vs s1, @get_valid_expirations sample_provider t sample_session = (Ok vs, s1) →
       get_valid_expirations t (run acts s1) = (Ok vs, run acts s1))
  ∧ (∃ evs, trace (run acts sample_session) = trace sample_session ++ evs
            ∧ ∀ ev, ev ∈ evs → ¬ stored sample_session ev)
  ∧ NoDup (requests (trace (run acts sample_session))).
Proof.
  intros acts.
  assert (Hreach : @reachable sample_provider sample_session)
    by (exists 0, []; reflexivity).
  split; [exact Hreach|].
  exact (@cached_at_most_once sample_provider sample_session acts Hreach).
Defined.

(** A call that raises stores nothing, and the next call with the same
    key enters the wrapped function again: [get_valid_expirations] on a
    chain without the openInterest column, and
    [get_all_expiration_dates] on a symbol [yf.Ticker] refuses. *)
Lemma raising_call_is_entered_again :
  let s0 := @session_start broken_provider 0 in
  let s1 := (@get_valid_expirations broken_provider "BAD" s0).2 in
  let s2 := (@get_valid_expirations broken_provider "BAD" s1).2 in
  (@get_valid_expirations broken_provider "BAD" s0).1 = Raise (KeyError "openInterest")
  ∧ (@get_valid_expirations broken_provider "BAD" s1).1 = Raise (KeyError "openInterest")
  ∧ trace s2
    = [Enter_get_valid_expirations "BAD"; Enter_get_all_expiration_dates "BAD";
       Request_options "BAD"; Enter_get_options_chain "BAD" "2025-01-17";
       Request_option_chain "BAD" "2025-01-17"; Enter_get_valid_expirations "BAD"]
  ∧ ¬ NoDup (trace s2)
  ∧ trace (@run sample_provider
             [@Call_get_all_expiration_dates sample_provider "";
              @Call_get_all_expiration_dates sample_provider ""] sample_session)
    = [Enter_get_all_expiration_dates ""; Enter_get_all_expiration_dates ""].
Proof.
  intros s0 s1 s2.
  assert (Htr : trace s2
    = [Enter_get_valid_expirations "BAD"; Enter_get_all_expiration_dates "BAD";
       Request_options "BAD"; Enter_get_options_chain "BAD" "2025-01-17";
       Request_option_chain "BAD" "2025-01-17"; Enter_get_valid_expirations "BAD"])
    by (vm_compute; reflexivity).
  split; [vm_compute; reflexivity|].
  split; [vm_compute; reflexivity|].
  split; [exact Htr|].
  split; [|vm_compute; reflexivity].
  rewrite Htr. intros Hnd. apply NoDup_cons in Hnd as [Hnotin _].
  apply Hnotin. set_solver.
Qed.

(** C10 on the sample provider: HALT has a candidate and no chain. *)
Lemma valid_expirations_total_on_empty_witness :
  let s0 := (@log sample_provider (Enter_get_valid_expirations "HALT") sample_session).2 in
  let s1 := (@get_all_expiration_dates sample_provider "HALT" s0).2 in
  valid_cache sample_session !! "HALT" = None
  ∧ @get_all_expiration_dates sample_provider "HALT" s0 = (Ok ["2025-03-21"], s1)
  ∧ @fetches_empty sample_provider "HALT" ["2025-03-21"] s1 = true
  ∧ (∃ s', @get_valid_expirations sample_provider "HALT" sample_session = (Ok [], s')
           ∧ valid_cache s' !! "HALT" = Some [])
  ∧ (∀ acc, ∃ s', @valid_expirations_loop sample_provider "HALT" ["2025-03-21"] acc s1
                  = (Ok acc, s'))
  ∧ (∀ df, empty df = true → has_open_interest df = Ok false)
  ∧ getitem DataFrame_new "openInterest" = Raise (KeyError "openInterest").
Proof.
  intros s0 s1.
  assert (Hmiss : valid_cache sample_session !! "HALT" = None) by reflexivity.
  assert (Hlist : @get_all_expiration_dates sample_provider "HALT" s0
                  = (Ok ["2025-03-21"], s1)) by (vm_compute; reflexivity).
  assert (Hall : @fetches_empty sample_provider "HALT" ["2025-03-21"] s1 = true)
    by (vm_compute; reflexivity).
  split; [exact Hmiss|]. split; [exact Hlist|]. split; [exact Hall|].
  exact (@valid_expirations_total_on_empty sample_provider "HALT" sample_session s1
           ["2025-03-21"] Hmiss Hlist Hall).
Defined.

(** C6 on the sample provider: it builds a handle for NONE and raises on
    both requests, and it refuses the empty symbol. *)
Lemma gateway_fails_softly_inside_try_witness :
  (@yf_Ticker sample_provider "NONE" (world sample_session) = (Ok "NONE", 0)
   ∧ @yf_options sample_provider "NONE" 0 = (Raise ProviderError, 1)
   ∧ @yf_option_chain sample_provider "NONE" "2025-01-17" 0 = (Raise ProviderError, 1)
   ∧ (∃ s', @get_all_expiration_dates sample_provider "NONE" sample_session = (Ok [], s'))
   ∧ (∃ s', @get_options_chain sample_provider "NONE" "2025-01-17" sample_session
            = (Ok DataFrame_new, s')
            ∧ empty DataFrame_new = true))
  ∧ (@yf_Ticker sample_provider "" (world sample_session) = (Raise ProviderError, 0)
     ∧ (∃ s', @get_all_expiration_dates sample_provider "" sample_session
              = (Raise ProviderError, s')
              ∧ expirations_cache s' !! "" = None)
     ∧ (∃ s', @get_options_chain sample_provider "" "2025-01-17" sample_session
              = (Raise ProviderError, s')
              ∧ chain_cache s' !! ("", "2025-01-17") = None)).
Proof.
  split.
  - destruct (@gateway_fails_softly_inside_try sample_provider "NONE" "2025-01-17"
                sample_session) as [Hsoft _].
    destruct (Hsoft "NONE" 0 eq_refl) as (_ & _ & Hexp & Hchain).
    split; [reflexivity|]. split; [reflexivity|]. split; [reflexivity|]. split.
    + apply (Hexp ProviderError 1); reflexivity.
    + apply (Hchain ProviderError 1); reflexivity.
  - destruct (@gateway_fails_softly_inside_try sample_provider "" "2025-01-17"
                sample_session) as [_ Hhard].
    destruct (Hhard ProviderError 0 eq_refl) as [Hexp Hchain].
    split; [reflexivity|]. split.
    + apply Hexp; reflexivity.
    + apply Hchain; reflexivity.
Defined.

(** C9 on the sample chain after its derived fields were computed. *)
Lemma nonZeroChanges_exact_witness :
  let df := (plot_change_in_open_interest sample_chain).2 in
  "change_in_OI" ∈ columns df
  ∧ ∃ v, nonZeroChanges df = Ok v
         ∧ columns v = columns df
         ∧ rows v = filter (fun r => cell r.2 "change_in_OI" ≠ VInt 0) (rows df)
         ∧ ∀ df0 v' df', plot_change_in_open_interest df0 = (Ok v', df') →
                         nonZeroChanges df' = Ok v'.
Proof.
  intros df.
  assert (Hcol : "change_in_OI" ∈ columns df)
    by (apply (bool_decide_unpack _); vm_compute; exact I).
  split; [exact Hcol|]. exact (nonZeroChanges_exact df Hcol).
Defined.


(** C4 on the sample chain. *)
Lemma open_interest_sorted_view_witness :
  chain_table sample_chain = true
  ∧ ∃ v, plot_open_interest_sorted sample_chain = (Ok v, sample_chain)
         ∧ columns v = columns sample_chain
         ∧ rows v ≡ₚ filter (fun r => positive (cell r.2 "openInterest"))
                            (rows sample_chain)
         ∧ StronglySorted expiry_desc_strike_asc (rows v)
         ∧ ∀ e k,
             filter (fun r => cell r.2 "expiration_date" = e ∧ cell r.2 "strike" = k)
                    (rows v)
             = filter (fun r => cell r.2 "expiration_date" = e ∧ cell r.2 "strike" = k)
                      (filter (fun r => positive (cell r.2 "openInterest"))
                              (rows sample_chain)).
Proof.
  assert (Hct : chain_table sample_chain = true) by (vm_compute; reflexivity).
  split; [exact Hct|]. exact (open_interest_sorted_view sample_chain Hct).
Defined.

(** * Further properties of the code *)

(** ** Tick thinning *)

Lemma slice_from_lookup {A} (step : nat) (a : list A) :
  0 < step →
  ∀ skip j, slice_from step skip a !! j = a !! (skip + j * step).
Proof.
  intros Hstep. induction a as [|x a IH]; intros skip j; simpl; [done|].
  destruct skip as [|skip].
  - destruct j as [|j]; simpl; [done|].
    rewrite IH. replace (step + j * step) with (S (step - 1 + j * step)) by lia.
    done.
  - by rewrite IH.
Qed.

Lemma slice_step_length {A} (step : nat) (a : list A) (j : nat) :
  0 < step → j < length (slice_step step a) ↔ j * step < length a.
Proof.
  intros Hstep. unfold slice_step.
  rewrite <- !lookup_lt_is_Some, slice_from_lookup by done. done.
Qed.

(** X1. On a table with a strike column [adjust_xticks] returns; with at
    most 20 distinct strikes the ticks stay as they are; with more, tick
    j of the result is tick j * (n / 20) of the axis, n the number of
    distinct strikes, so the first tick stays, and when the axis has one
    tick per distinct strike between 20 and 39 ticks are left. *)
Theorem adjust_xticks_thins {A} (xticks : list A) (df : DataFrame) :
  "strike" ∈ columns df →
  let n := length (unique (map (fun r : nat * Row => cell r.2 "strike") (rows df))) in
  ∃ ticks, adjust_xticks xticks df = Ok ticks
    ∧ (n ≤ 20 → ticks = xticks)
    ∧ (20 < n →
       (∀ j, ticks !! j = xticks !! (j * (n / 20)))
       ∧ (length xticks = n → 20 ≤ length ticks ≤ 39)).
Proof.
  intros Hcol n. unfold adjust_xticks. rewrite (getitem_Ok _ _ Hcol).
  unfold mbind, result_bind. fold n.
  destruct (20 <? n) eqn:Hn.
  - apply Nat.ltb_lt in Hn. eexists. split; [done|]. split; [lia|].
    intros _. assert (Hstep : 0 < n / 20) by (apply Nat.div_str_pos; lia).
    split.
    + intros j. unfold slice_step. by rewrite slice_from_lookup.
    + intros Hlen.
      assert (H19 := slice_step_length (n / 20) xticks 19 Hstep).
      assert (H39 := slice_step_length (n / 20) xticks 39 Hstep).
      rewrite Hlen in H19, H39.
      assert (Hdiv := Nat.div_mod_eq n 20).
      assert (Hmod := Nat.mod_upper_bound n 20).
      split.
      * apply H19. lia.
      * destruct (decide (39 < length (slice_step (n / 20) xticks))) as [Hgt|]; [|lia].
        apply H39 in Hgt. lia.
  - apply Nat.ltb_ge in Hn. eexists. split; [done|]. split; [done|lia].
Qed.

(** Without a strike column [adjust_xticks] raises. *)
Lemma adjust_xticks_no_strike {A} (xticks : list A) (df : DataFrame) :
  "strike" ∉ columns df → adjust_xticks xticks df = Raise (KeyError "strike").
Proof. intros H. unfold adjust_xticks, getitem. by rewrite decide_False. Qed.

(** X1 on the wide table, whose axis has a tick per strike: 23 ticks are
    left, every second one. *)
Lemma adjust_xticks_thins_witness :
  "strike" ∈ columns wide_table
  ∧ adjust_xticks (seq 0 45) wide_table
    = Ok [0; 2; 4; 6; 8; 10; 12; 14; 16; 18; 20; 22; 24; 26; 28; 30; 32; 34;
          36; 38; 40; 42; 44]
  ∧ ∃ ticks, adjust_xticks (seq 0 45) wide_table = Ok ticks
      ∧ (45 ≤ 20 → ticks = seq 0 45)
      ∧ (20 < 45 →
         (∀ j, ticks !! j = seq 0 45 !! (j * (45 / 20)))
         ∧ (length (seq 0 45) = 45 → 20 ≤ length ticks ≤ 39)).
Proof.
  assert (Hcol : "strike" ∈ columns wide_table)
    by (apply (bool_decide_unpack _); vm_compute; exact I).
  split; [exact Hcol|]. split; [vm_compute; reflexivity|].
  exact (adjust_xticks_thins (seq 0 45) wide_table Hcol).
Defined.

(** ** The volume view *)

Lemma series_gt0_numeric (s : list value) :
  Forall (fun v => is_str v = false) s → series_gt0 s = Ok (map positive s).
Proof.
  induction 1 as [|v s Hv _ IH]; simpl; [done|].
  destruct v; try done; by rewrite IH.
Qed.

Lemma series_gt0_string (s : list value) :
  Exists (fun v => is_str v = true) s → series_gt0 s = Raise TypeError.
Proof.
  induction 1 as [v s Hv|v s _ IH]; simpl.
  - by destruct v.
  - destruct v; try done; by rewrite IH.
Qed.

(** X2. On a table whose volume column holds no string, [plot_volume]
    hands to the plot exactly the rows with volume > 0, in table order
    and under the columns of the table, and leaves the table as it was;
    rows whose volume is missing are dropped. With a string in the
    column it raises TypeError. *)
Theorem plot_volume_view (df : DataFrame) :
  "volume" ∈ columns df →
  (Forall (fun r : nat * Row => is_str (cell r.2 "volume") = false) (rows df) →
   plot_volume df
   = (Ok (mkDF (columns df)
               (filter (fun r => positive (cell r.2 "volume")) (rows df))), df))
  ∧ (Exists (fun r : nat * Row => is_str (cell r.2 "volume") = true) (rows df) →
     plot_volume df = (Raise TypeError, df)).
Proof.
  intros Hcol.
  unfold plot_volume, mbind, M_bind, get_df, lift. simpl.
  rewrite (getitem_Ok _ _ Hcol). split.
  - intros Hnum. rewrite series_gt0_numeric by (by apply Forall_map).
    unfold mret, M_ret, getitem_mask.
    by rewrite map_map, (mask_rows_map (fun r => positive (cell r.2 "volume"))).
  - intros Hstr. rewrite series_gt0_string; [done|].
    apply Exists_exists in Hstr as (r & Hr & Hv). apply Exists_exists.
    exists (cell r.2 "volume"). split; [|done].
    apply list_elem_of_fmap. by exists r.
Qed.

(** X2 on the sample chain: the rows 0, 2 and 4 have volume. *)
Lemma plot_volume_view_witness :
  "volume" ∈ columns sample_chain
  ∧ Forall (fun r : nat * Row => is_str (cell r.2 "volume") = false) (rows sample_chain)
  ∧ plot_volume sample_chain
    = (Ok (mkDF (columns sample_chain)
                (filter (fun r => positive (cell r.2 "volume")) (rows sample_chain))),
       sample_chain)
  ∧ map fst (filter (fun r : nat * Row => positive (cell r.2 "volume"))
                    (rows sample_chain)) = [0; 2; 4].
Proof.
  assert (Hcol : "volume" ∈ columns sample_chain)
    by (apply (bool_decide_unpack _); vm_compute; exact I).
  assert (Hnum : Forall (fun r : nat * Row => is_str (cell r.2 "volume") = false)
                        (rows sample_chain))
    by (apply (bool_decide_unpack _); vm_compute; exact I).
  split; [exact Hcol|]. split; [exact Hnum|].
  split; [exact (proj1 (plot_volume_view sample_chain Hcol) Hnum)|].
  vm_compute. reflexivity.
Defined.

(** ** Errors of the plot functions *)

Lemma getitem_KeyError df c : c ∉ columns df → getitem df c = Raise (KeyError c).
Proof. intros H. unfold getitem. by rewrite decide_False. Qed.

(** X3. A plot function that does not find a column it reads raises
    KeyError with the name of that column and leaves the table as it
    was: volume for [plot_volume]; openInterest, then expiration_date,
    for [plot_open_interest_sorted]; strike, then openInterest, for
    [plot_change_in_open_interest], which does not read strike when the
    table has prev_openInterest already, and whose grouped selection
    words the key as Column not found: openInterest. *)
Theorem plot_functions_missing_column (df : DataFrame) :
  ("volume" ∉ columns df → plot_volume df = (Raise (KeyError "volume"), df))
  ∧ ("openInterest" ∉ columns df →
     plot_open_interest_sorted df = (Raise (KeyError "openInterest"), df))
  ∧ ("openInterest" ∈ columns df →
     Forall (fun r : nat * Row => is_str (cell r.2 "openInterest") = false) (rows df) →
     "expiration_date" ∉ columns df →
     plot_open_interest_sorted df = (Raise (KeyError "expiration_date"), df))
  ∧ ("prev_openInterest" ∉ columns df → "strike" ∉ columns df →
     plot_change_in_open_interest df = (Raise (KeyError "strike"), df))
  ∧ ("openInterest" ∉ columns df → "prev_openInterest" ∈ columns df →
     plot_change_in_open_interest df = (Raise (KeyError "openInterest"), df))
  ∧ ("openInterest" ∉ columns df → "prev_openInterest" ∉ columns df →
     "strike" ∈ columns df →
     plot_change_in_open_interest df
     = (Raise (KeyError "Column not found: openInterest"), df)).
Proof.
  split; [|split; [|split; [|split; [|split]]]].
  - intros H. unfold plot_volume, mbind, M_bind, get_df, lift.
    by rewrite getitem_KeyError.
  - intros H. unfold plot_open_interest_sorted, mbind, M_bind, get_df, lift.
    by rewrite getitem_KeyError.
  - intros Hoi Hnum Hexp.
    unfold plot_open_interest_sorted, mbind, M_bind, get_df, lift.
    rewrite (getitem_Ok _ _ Hoi), series_gt0_numeric by (by apply Forall_map).
    unfold sort_values. cbn [check_sort_keys].
    rewrite (getitem_KeyError (getitem_mask df _) _ Hexp). reflexivity.
  - intros Hprev Hstrike. rewrite plot_change_in_open_interest_eq.
    rewrite decide_False by done. unfold groupby_shift.
    rewrite (getitem_KeyError df "strike") by done. reflexivity.
  - intros Hoi Hprev. rewrite plot_change_in_open_interest_eq.
    rewrite decide_True by done.
    rewrite (getitem_KeyError df "openInterest") by done. reflexivity.
  - intros Hoi Hprev Hstrike. rewrite plot_change_in_open_interest_eq.
    rewrite decide_False by done.
    unfold groupby_shift. rewrite (getitem_Ok _ _ Hstrike).
    rewrite (decide_False (P := "openInterest" ∈ columns df)) by done. reflexivity.
Qed.

Lemma series_sub_string a :
  ∀ b, Exists (fun v => is_str v = true) a → length a = length b →
       series_sub a b = Raise TypeError.
Proof.
  induction a as [|x a IH]; intros [|y b] Hex Hlen; simpl in *; try done.
  - by apply Exists_nil in Hex.
  - unfold mbind, result_bind.
    apply Exists_cons in Hex as [Hx|Hex].
    + by destruct x, y.
    + rewrite (IH b Hex) by lia. by destruct x, y.
Qed.

(** X4. [plot_change_in_open_interest] can fail after it has written: on
    a table with the strike and openInterest columns and no
    prev_openInterest, if some openInterest cell is a string, the
    subtraction raises TypeError and the table is left with the column
    prev_openInterest added and no other change. *)
Theorem plot_change_in_open_interest_half_written (df : DataFrame) :
  "prev_openInterest" ∉ columns df →
  "strike" ∈ columns df →
  "openInterest" ∈ columns df →
  Exists (fun r : nat * Row => is_str (cell r.2 "openInterest") = true) (rows df) →
  ∃ shifted,
    groupby_shift df "strike" "openInterest" (VInt 0) = Ok shifted
    ∧ plot_change_in_open_interest df
      = (Raise TypeError, setitem df "prev_openInterest" shifted)
    ∧ columns (setitem df "prev_openInterest" shifted)
      = columns df ++ ["prev_openInterest"]
    ∧ differ_only_on ["prev_openInterest"] df (setitem df "prev_openInterest" shifted).
Proof.
  intros Hprev Hstrike Hoi Hstr.
  destruct (groupby_shift df "strike" "openInterest" (VInt 0)) as [shifted|x] eqn:Hsh.
  2: { unfold groupby_shift in Hsh.
       rewrite (decide_True (P := "openInterest" ∈ columns df)) in Hsh by done.
       by rewrite !getitem_Ok in Hsh. }
  assert (Hlen := length_groupby_shift _ _ _ _ _ Hsh).
  exists shifted. split; [done|]. split; [|split].
  - rewrite plot_change_in_open_interest_eq, decide_False, Hsh by done.
    rewrite (getitem_setitem_ne df "prev_openInterest" shifted "openInterest" _
               ltac:(done) Hlen (getitem_Ok _ _ Hoi)).
    rewrite getitem_setitem_eq by done.
    rewrite series_sub_string; [done| |by rewrite length_map].
    apply Exists_exists in Hstr as (r & Hr & Hv). apply Exists_exists.
    exists (cell r.2 "openInterest"). split; [|done].
    apply list_elem_of_fmap. by exists r.
  - simpl. unfold add_column. by rewrite decide_False.
  - by apply differ_only_on_setitem.
Qed.

(** ** More on the gateway *)

Section GatewayErrors.
Context `{P : Provider}.

(** X5. A failure of the request is remembered like an answer: when
    [yf.Ticker] has built its handle and reading [.options] raises,
    every later call of [get_all_expiration_dates] for that ticker in
    the session returns the empty list without asking again, whatever
    the provider would answer by then. *)
Theorem failed_listing_is_remembered (t : string) (s : AppState) (h : Ticker)
    (x : exn) (w w' : World) (acts : list action) :
  expirations_cache s !! t = None →
  yf_Ticker t (world s) = (Ok h, w) →
  yf_options h w = (Raise x, w') →
  let s1 := (get_all_expiration_dates t s).2 in
  get_all_expiration_dates t (run acts s1) = (Ok [], run acts s1).
Proof.
  intros Hmiss Hh Hfail s1.
  apply get_all_expiration_dates_hit.
  destruct (run_grows acts s1) as (Hsub & _).
  eapply lookup_weaken; [|done].
  unfold s1. rewrite (get_all_expiration_dates_miss t s Hmiss), Hh, Hfail. simpl.
  by rewrite lookup_insert_eq.
Qed.

(** X6. When [yf.Ticker] has built its handle and the request of
    [get_options_chain] raises, the empty table is what every later call
    for that ticker and expiration returns, without asking again; and a
    later [get_valid_expirations] for the ticker that returns does not
    list the expiration. *)
Theorem failed_fetch_hides_expiration (t e : string) (s : AppState) (h : Ticker)
    (x : exn) (w w' : World) (acts : list action) :
  reachable s →
  chain_cache s !! (t, e) = None →
  yf_Ticker t (world s) = (Ok h, w) →
  yf_option_chain h e w = (Raise x, w') →
  let s2 := run acts (get_options_chain t e s).2 in
  get_options_chain t e s2 = (Ok DataFrame_new, s2)
  ∧ ∀ vs s3, get_valid_expirations t s2 = (Ok vs, s3) → e ∉ vs.
Proof.
  intros Hreach Hmiss Hh Hfail s2.
  assert (Hstored : chain_cache s2 !! (t, e) = Some DataFrame_new).
  { destruct (run_grows acts (get_options_chain t e s).2) as (_ & Hsub & _).
    eapply lookup_weaken; [|done].
    rewrite (get_options_chain_miss t e s Hmiss), Hh, Hfail. simpl.
    by rewrite lookup_insert_eq. }
  split; [by apply get_options_chain_hit|].
  intros vs s3 Hvalid.
  assert (Hreach2 : reachable s2).
  { apply reachable_run.
    by apply (reachable_perform (Call_get_options_chain t e)). }
  apply get_valid_expirations_spec in Hvalid as ((_ & Hsub & _) & Hvs & Hc).
  destruct (Hc (reachable_consistent _ Hreach2)) as [Hinv _].
  destruct (Hinv t vs (Hvs vs eq_refl)) as (all & _ & _ & ->).
  intros [Hv _]%list_elem_of_filter. unfold chain_valid in Hv.
  by rewrite (lookup_weaken _ _ _ _ Hstored Hsub) in Hv.
Qed.

End GatewayErrors.

(** X4 on a table with a string in openInterest. *)
Lemma plot_change_in_open_interest_half_written_witness :
  "prev_openInterest" ∉ columns garbled_table
  ∧ "strike" ∈ columns garbled_table
  ∧ "openInterest" ∈ columns garbled_table
  ∧ Exists (fun r : nat * Row => is_str (cell r.2 "openInterest") = true)
           (rows garbled_table)
  ∧ ∃ shifted,
      groupby_shift garbled_table "strike" "openInterest" (VInt 0) = Ok shifted
      ∧ plot_change_in_open_interest garbled_table
        = (Raise TypeError, setitem garbled_table "prev_openInterest" shifted)
      ∧ columns (setitem garbled_table "prev_openInterest" shifted)
        = columns garbled_table ++ ["prev_openInterest"]
      ∧ differ_only_on ["prev_openInterest"] garbled_table
          (setitem garbled_table "prev_openInterest" shifted).
Proof.
  assert (H1 : "prev_openInterest" ∉ columns garbled_table)
    by (apply (bool_decide_unpack _); vm_compute; exact I).
  assert (H2 : "strike" ∈ columns garbled_table)
    by (apply (bool_decide_unpack _); vm_compute; exact I).
  assert (H3 : "openInterest" ∈ columns garbled_table)
    by (apply (bool_decide_unpack _); vm_compute; exact I).
  assert (H4 : Exists (fun r : nat * Row => is_str (cell r.2 "openInterest") = true)
                      (rows garbled_table))
    by (apply (bool_decide_unpack _); vm_compute; exact I).
  split; [exact H1|]. split; [exact H2|]. split; [exact H3|]. split; [exact H4|].
  exact (plot_change_in_open_interest_half_written garbled_table H1 H2 H3 H4).
Defined.

Section GatewayRaises.
Context `{P : Provider}.

Lemma exact_sum_raise (s : list value) x : exact_sum s = Raise x → x = TypeError.
Proof.
  induction s as [|v s IH]; simpl; [done|].
  destruct v as [z| |]; simpl; [|by intros [= <-]|done].
  unfold mbind, result_bind. destruct (exact_sum s); [done|].
  intros [= <-]. by apply IH.
Qed.

Lemma series_sum_raise (s : list value) x : series_sum s = Raise x → x = TypeError.
Proof.
  unfold series_sum, mbind, result_bind.
  destruct (exact_sum s) eqn:Hsum; [done|].
  intros [= <-]. by apply exact_sum_raise in Hsum.
Qed.

Lemma has_open_interest_raise df x :
  has_open_interest df = Raise x →
  empty df = false
  ∧ (x = KeyError "openInterest" ∧ "openInterest" ∉ columns df
     ∨ x = TypeError ∧ "openInterest" ∈ columns df).
Proof.
  unfold has_open_interest. destruct (empty df); simpl; [done|].
  unfold getitem. destruct (decide ("openInterest" ∈ columns df)) as [Hin|Hin]; simpl.
  - unfold mbind at 1, result_bind at 1.
    destruct (series_sum _) eqn:Hsum; [done|].
    intros [= <-]. apply series_sum_raise in Hsum as ->. auto.
  - intros [= <-]. auto.
Qed.

(** The only exception of a gateway function is that of [yf.Ticker]. *)
Lemma get_all_expiration_dates_raise t s x s' :
  get_all_expiration_dates t s = (Raise x, s') →
  ∃ w, yf_Ticker t (world s) = (Raise x, w).
Proof.
  destruct (expirations_cache s !! t) as [l|] eqn:Hhit.
  - by rewrite (get_all_expiration_dates_hit _ _ _ Hhit).
  - rewrite (get_all_expiration_dates_miss _ _ Hhit).
    destruct (yf_Ticker t (world s)) as [[h|y] w]; [done|].
    intros [= <- _]. by eexists.
Qed.

Lemma get_options_chain_raise t e s x s' :
  get_options_chain t e s = (Raise x, s') →
  ∃ w, yf_Ticker t (world s) = (Raise x, w).
Proof.
  destruct (chain_cache s !! (t, e)) as [df|] eqn:Hhit.
  - by rewrite (get_options_chain_hit _ _ _ _ Hhit).
  - rewrite (get_options_chain_miss _ _ _ Hhit).
    destruct (yf_Ticker t (world s)) as [[h|y] w]; [done|].
    intros [= <- _]. by eexists.
Qed.

Lemma valid_expirations_loop_raise t all :
  ∀ acc s x s', valid_expirations_loop t all acc s = (Raise x, s') →
    (∃ w w', yf_Ticker t w = (Raise x, w'))
    ∨ ∃ e df, e ∈ all ∧ chain_cache s' !! (t, e) = Some df
              ∧ has_open_interest df = Raise x.
Proof.
  induction all as [|e all IH]; intros acc s x s'; simpl; [done|].
  unfold mbind, M_bind.
  destruct (get_options_chain t e s) as [[df|y] s1] eqn:Hget.
  2: { intros [= <- <-]. left.
       apply get_options_chain_raise in Hget as [w Hw]. eauto. }
  apply get_options_chain_spec in Hget as (_ & _ & _ & _ & Hdf).
  specialize (Hdf df eq_refl).
  unfold lift. destruct (has_open_interest df) as [keep|y] eqn:Hkeep.
  - intros [?|(e' & df' & ? & ? & ?)]%IH; [by left|].
    right. exists e', df'. split; [by right|done].
  - intros [= <- <-]. right. exists e, df. split; [by left|done].
Qed.

(** X7. An exception that leaves [get_valid_expirations] is one that
    [yf.Ticker] raised for the symbol, or that of the test of line 41
    on a non-empty chain of a candidate: KeyError for openInterest when
    the chain lacks the column, TypeError when the column cannot be
    summed. Nothing is stored for the ticker then, so the next call runs
    the function again, while what the gateway stored so far stays
    stored. *)
Theorem valid_expirations_raises (t : string) (s s' : AppState) (x : exn) :
  get_valid_expirations t s = (Raise x, s') →
  valid_cache s' !! t = None
  ∧ valid_cache s' = valid_cache s
  ∧ expirations_cache s ⊆ expirations_cache s'
  ∧ chain_cache s ⊆ chain_cache s'
  ∧ ((∃ w w', yf_Ticker t w = (Raise x, w'))
     ∨ ∃ all e df,
         expirations_cache s' !! t = Some all ∧ e ∈ all
         ∧ chain_cache s' !! (t, e) = Some df ∧ empty df = false
         ∧ (x = KeyError "openInterest" ∧ "openInterest" ∉ columns df
            ∨ x = TypeError ∧ "openInterest" ∈ columns df)).
Proof.
  unfold get_valid_expirations, cache_data.
  destruct (valid_cache s !! t) as [vs|] eqn:Hmiss; [done|].
  set (s0 := (log (Enter_get_valid_expirations t) s).2).
  destruct (get_valid_expirations_wrapped t s0) as [[vs|y] s1] eqn:Hrun; [done|].
  intros [= <- <-].
  assert (Hspec := Hrun).
  apply get_valid_expirations_wrapped_spec in Hspec as (Hval & Hexp & Hch & _).
  split; [by rewrite Hval|]. split; [done|]. split; [done|]. split; [done|].
  unfold get_valid_expirations_wrapped, mbind, M_bind in Hrun.
  destruct (get_all_expiration_dates t s0) as [[l|z] s0'] eqn:Hget.
  2: { injection Hrun as <- <-. left.
       apply get_all_expiration_dates_raise in Hget as [w Hw]. eauto. }
  apply get_all_expiration_dates_spec in Hget as (_ & _ & _ & _ & Hl).
  specialize (Hl l eq_refl).
  assert (Hloop := Hrun).
  apply valid_expirations_loop_spec in Hloop as (Hexp' & _).
  apply valid_expirations_loop_raise in Hrun as [?|(e & df & He & Hdf & Hx)]; [by left|].
  apply has_open_interest_raise in Hx as [Hne Hx].
  right. exists l, e, df. split; [by rewrite Hexp'|]. done.
Qed.

(** X8. Validation fetches ahead: in a session, once
    [get_valid_expirations] has returned for a ticker, the chain of every
    candidate of that ticker is stored, so that [get_options_chain]
    returns it at any later time without a request and without a change
    of state; for a listed expiration that table is not empty. *)
Theorem validation_stores_every_chain (t : string) (s s' : AppState)
    (vs : list string) (acts : list action) :
  reachable s →
  get_valid_expirations t s = (Ok vs, s') →
  let s2 := run acts s' in
  ∃ all, get_all_expiration_dates t s2 = (Ok all, s2)
    ∧ (∀ e, e ∈ all → ∃ df, get_options_chain t e s2 = (Ok df, s2))
    ∧ (∀ e, e ∈ vs → ∃ df, get_options_chain t e s2 = (Ok df, s2)
                           ∧ empty df = false).
Proof.
  intros Hreach Hrun s2.
  apply get_valid_expirations_spec in Hrun as (_ & Hstored & Hc).
  destruct (Hc (reachable_consistent _ Hreach)) as [Hinv _].
  destruct (Hinv t vs (Hstored vs eq_refl)) as (all & Hall & Hcached & Hvs).
  destruct (run_grows acts s') as (Hexp & Hch & _).
  exists all. split; [|split].
  - apply get_all_expiration_dates_hit. by eapply lookup_weaken.
  - intros e [df Hdf]%Hcached. exists df.
    apply get_options_chain_hit. by eapply lookup_weaken.
  - intros e. rewrite Hvs. intros [Hv He]%list_elem_of_filter.
    unfold chain_valid in Hv.
    destruct (chain_cache s' !! (t, e)) as [df|] eqn:Hdf; [|done].
    exists df. split.
    + apply get_options_chain_hit. by eapply lookup_weaken.
    + destruct (has_open_interest df) as [[]|] eqn:Hok; try done.
      by apply has_open_interest_true in Hok as [? _].
Qed.

End GatewayRaises.

Section GatewayChains.
Context `{P : Provider}.

Lemma stamped_normalize calls puts e : stamped e (normalize calls puts e).
Proof.
  split; [apply normalize_columns; auto|].
  split; [apply normalize_columns; auto|].
  rewrite normalize_rows_eq.
  set (body := map (tagged "Call" e) (map snd (rows calls))
               ++ map (tagged "Put" e) (map snd (rows puts))).
  assert (Hlen : length body = length (rows calls) + length (rows puts)).
  { unfold body. by rewrite length_app, !length_map. }
  rewrite <- Hlen. split.
  - rewrite length_zip_with, length_seq, Nat.min_id.
    apply fst_zip. by rewrite length_seq.
  - intros [i r] Hr%elem_of_zip_r. simpl.
    apply elem_of_app in Hr as [Hr|Hr];
      apply list_elem_of_fmap in Hr as (r0 & -> & _).
    + rewrite tagged_expiration_date, tagged_option_type. auto.
    + rewrite tagged_expiration_date, tagged_option_type. auto.
Qed.

Lemma reachable_chains_stamped s :
  reachable s →
  ∀ t e df, chain_cache s !! (t, e) = Some df → df = DataFrame_new ∨ stamped e df.
Proof.
  intros Hreach.
  apply (reachable_chain_cache (fun _ e df => df = DataFrame_new ∨ stamped e df));
    [auto|intros; right; apply stamped_normalize|done].
Qed.

Lemma get_options_chain_stored t e s df s' :
  reachable s → get_options_chain t e s = (Ok df, s') →
  reachable s' ∧ chain_cache s' !! (t, e) = Some df.
Proof.
  intros Hreach Hrun. split.
  2: { apply get_options_chain_spec in Hrun as (_ & _ & _ & _ & Hdf). by apply Hdf. }
  replace s' with (perform (Call_get_options_chain t e) s)
    by (simpl; by rewrite Hrun).
  by apply reachable_perform.
Qed.

(** X10. Every table [get_options_chain] returns in a session is either
    the empty table of a failed fetch or a normalized chain: it has the
    columns option_type and expiration_date, its rows are labelled 0, 1,
    2 .., and every row holds the expiration it was asked for and Call
    or Put. *)
Theorem get_options_chain_is_stamped (t e : string) (s s' : AppState) (df : DataFrame) :
  reachable s →
  get_options_chain t e s = (Ok df, s') →
  df = DataFrame_new ∨ stamped e df.
Proof.
  intros Hreach Hrun.
  destruct (get_options_chain_stored t e s df s' Hreach Hrun) as [Hreach' Hdf].
  by apply (reachable_chains_stamped s' Hreach' t).
Qed.

Lemma plot_open_interest_sorted_eq df :
  chain_table df = true →
  plot_open_interest_sorted df
  = (Ok (mkDF (columns df)
          (stable_sort (fun r1 r2 : nat * Row => rows_compare sorted_view_keys r1.2 r2.2)
             (filter (fun r : nat * Row => positive (cell r.2 "openInterest")) (rows df)))),
     df).
Proof.
  intros Hct.
  destruct (chain_table_inv df Hct) as (Hstrike & Hoi & _ & Hexp & Hrows).
  set (kept := filter (fun r : nat * Row => positive (cell r.2 "openInterest")) (rows df)).
  assert (Hkept : Forall (fun r : nat * Row =>
            is_str (cell r.2 "expiration_date") ∧ is_int (cell r.2 "strike")) kept).
  { apply Forall_forall. intros r [_ Hr]%list_elem_of_filter.
    rewrite Forall_forall in Hrows. by destruct (Hrows r Hr) as (?&_&_&?). }
  unfold plot_open_interest_sorted, mbind, M_bind, get_df, lift. simpl.
  rewrite (getitem_Ok _ _ Hoi).
  rewrite series_gt0_positive.
  2: { apply Forall_column. eapply Forall_impl; [done|]. by intros r (_&?&_). }
  unfold getitem_mask.
  rewrite map_map, (mask_rows_map (fun r => positive (cell r.2 "openInterest"))).
  fold kept. unfold sort_values, mbind, result_bind. simpl.
  by rewrite !getitem_Ok by done.
Qed.

Lemma strike_asc_trans r1 r2 r3 : strike_asc r1 r2 → strike_asc r2 r3 → strike_asc r1 r3.
Proof.
  intros (k1 & k2 & H1 & H2 & H12) (k2' & k3 & H2' & H3 & H23).
  rewrite H2 in H2'. injection H2' as <-.
  exists k1, k3. repeat split; try done. lia.
Qed.

(** X11. A chain from [get_options_chain] has one expiration, so for it
    the first sort key of [plot_open_interest_sorted] decides nothing:
    on such a table, when it is a chain table, the view is ordered by
    strike ascending alone, and the rows of one strike keep their table
    order, the call before the put. *)
Theorem single_chain_sorted_by_strike (t e : string) (s s' : AppState) (df : DataFrame) :
  reachable s →
  get_options_chain t e s = (Ok df, s') →
  chain_table df = true →
  ∃ v, plot_open_interest_sorted df = (Ok v, df)
       ∧ StronglySorted strike_asc (rows v)
       ∧ ∀ k, filter (fun r => cell r.2 "strike" = k) (rows v)
              = filter (fun r => cell r.2 "strike" = k)
                       (filter (fun r => positive (cell r.2 "openInterest")) (rows df)).
Proof.
  intros Hreach Hrun Hct.
  assert (Hst : ∀ r, r ∈ rows df → cell r.2 "expiration_date" = VStr e).
  { intros r Hr.
    destruct (get_options_chain_stored t e s df s' Hreach Hrun) as [Hreach' Hdf].
    destruct (reachable_chains_stamped s' Hreach' t e df Hdf) as [->|(_&_&_&Hst)].
    - by apply elem_of_nil in Hr.
    - by apply Hst. }
  destruct (chain_table_inv df Hct) as (_ & _ & _ & _ & Hrows).
  rewrite (plot_open_interest_sorted_eq df Hct).
  eexists. split; [done|]. cbn [rows]. split.
  - apply (stable_sort_sorted _
             (fun r : nat * Row => cell r.2 "expiration_date" = VStr e
                                   ∧ is_int (cell r.2 "strike"))).
    + intros r1 r2 [He1 Hk1] [He2 Hk2] Hle.
      destruct (cell r1.2 "strike") as [k1| |] eqn:K1; try done.
      destruct (cell r2.2 "strike") as [k2| |] eqn:K2; try done.
      exists k1, k2. repeat split; try done. cbv beta in Hle.
      rewrite (sorted_view_compare _ _ _ _ _ _ He1 He2 K1 K2),
        string_compare_refl in Hle.
      by apply Z.compare_le_iff.
    + intros r1 r2 [He1 Hk1] [He2 Hk2] Hgt.
      destruct (cell r1.2 "strike") as [k1| |] eqn:K1; try done.
      destruct (cell r2.2 "strike") as [k2| |] eqn:K2; try done.
      exists k2, k1. repeat split; try done. cbv beta in Hgt.
      rewrite (sorted_view_compare _ _ _ _ _ _ He1 He2 K1 K2),
        string_compare_refl in Hgt.
      apply Z.compare_gt_iff in Hgt. lia.
    + apply strike_asc_trans.
    + apply Forall_forall. intros r [_ Hr]%list_elem_of_filter.
      split; [by apply Hst|].
      rewrite Forall_forall in Hrows. by destruct (Hrows r Hr) as (?&_).
  - intros k.
    assert (Hsplit : ∀ l : list (nat * Row),
      Forall (fun r => cell r.2 "expiration_date" = VStr e) l →
      filter (fun r => cell r.2 "strike" = k) l
      = filter (fun r => cell r.2 "expiration_date" = VStr e ∧ cell r.2 "strike" = k) l).
    { intros l Hl. apply filter_ext_elem. intros r Hr.
      rewrite Forall_forall in Hl. specialize (Hl r Hr).
      split; [by intros ?|by intros [_ ?]]. }
    set (kept := filter (fun r : nat * Row => positive (cell r.2 "openInterest")) (rows df)).
    assert (Hkept : Forall (fun r : nat * Row => cell r.2 "expiration_date" = VStr e) kept).
    { apply Forall_forall. intros r [_ Hr]%list_elem_of_filter. by apply Hst. }
    rewrite (Hsplit kept Hkept), Hsplit.
    + apply stable_sort_filter. intros r1 r2 [He1 Hk1] [He2 Hk2].
      rewrite rows_compare_same; [done|].
      repeat constructor; simpl; congruence.
    + by rewrite stable_sort_perm.
Qed.

End GatewayChains.

Section GatewayRequests.
Context `{P : Provider}.

Lemma valid_expirations_loop_trace t all :
  NoDup all →
  ∀ acc s vs s',
    (∀ e, e ∈ all → chain_cache s !! (t, e) = None) →
    valid_expirations_loop t all acc s = (Ok vs, s') →
    trace s' = trace s ++ List.concat (map (fetch_events t) all).
Proof.
  induction 1 as [|e all Hnotin Hnd IH]; intros acc s vs s' Hfresh; simpl.
  - intros [= _ <-]. by rewrite app_nil_r.
  - unfold mbind, M_bind.
    rewrite (get_options_chain_miss t e s) by (apply Hfresh; by left).
    destruct (yf_Ticker t (world s)) as [[h|x] w]; [|done]. cbv zeta.
    set (df := match (yf_option_chain h e w).1 with
               | Ok cp => normalize cp.1 cp.2 e
               | Raise _ => DataFrame_new
               end).
    unfold lift. destruct (has_open_interest df) as [keep|]; [|done].
    intros Hloop. apply IH in Hloop.
    + rewrite Hloop. simpl. by rewrite <- app_assoc.
    + intros e' He'. simpl. rewrite lookup_insert_ne.
      * apply Hfresh. by right.
      * intros [= ->]. done.
Qed.

(** X9. The first validation of a ticker costs one request for the
    expirations and one request per candidate, in the order of the
    candidates: when nothing is stored for the ticker and the candidates
    are distinct, the events of a call of [get_valid_expirations] that
    returns are its entry, the entry and request of
    [get_all_expiration_dates], and then the entry and request of
    [get_options_chain] for each candidate in turn. *)
Theorem first_validation_requests (t : string) (s s' : AppState) (vs : list string) :
  valid_cache s !! t = None →
  expirations_cache s !! t = None →
  (∀ e, chain_cache s !! (t, e) = None) →
  get_valid_expirations t s = (Ok vs, s') →
  ∃ all, get_all_expiration_dates t s' = (Ok all, s')
    ∧ (NoDup all →
       trace s' = trace s
                  ++ [Enter_get_valid_expirations t;
                      Enter_get_all_expiration_dates t; Request_options t]
                  ++ List.concat (map (fetch_events t) all)).
Proof.
  intros Hv He Hc. unfold get_valid_expirations, cache_data. rewrite Hv.
  set (s0 := (log (Enter_get_valid_expirations t) s).2).
  unfold get_valid_expirations_wrapped, mbind, M_bind.
  rewrite (get_all_expiration_dates_miss t s0 He).
  destruct (yf_Ticker t (world s0)) as [[h|x] w]; [|done]. cbv zeta.
  set (all := match (yf_options h w).1 with Ok l => l | Raise _ => [] end).
  set (s1 := mkState _ _ _ _ _).
  destruct (valid_expirations_loop t all [] s1) as [[vs'|x] s2] eqn:Hloop; [|done].
  intros [= <- <-].
  assert (Hspec := Hloop).
  apply valid_expirations_loop_spec in Hspec as (Hexp & _).
  exists all. split.
  - apply get_all_expiration_dates_hit. simpl. rewrite Hexp. simpl.
    by rewrite lookup_insert_eq.
  - intros Hnd. simpl.
    rewrite (valid_expirations_loop_trace t all Hnd [] s1 vs' s2); [|by intros|done].
    simpl. by rewrite <- !app_assoc.
Qed.

End GatewayRequests.

(** X9 on the sample provider: three requests for AAPL. *)
Lemma first_validation_requests_witness :
  let s' := (@get_valid_expirations sample_provider "AAPL" sample_session).2 in
  valid_cache sample_session !! "AAPL" = None
  ∧ expirations_cache sample_session !! "AAPL" = None
  ∧ (∀ e, chain_cache sample_session !! ("AAPL", e) = None)
  ∧ @get_valid_expirations sample_provider "AAPL" sample_session
    = (Ok ["2025-02-21"], s')
  ∧ ∃ all, @get_all_expiration_dates sample_provider "AAPL" s' = (Ok all, s')
      ∧ (NoDup all →
         trace s' = trace sample_session
                    ++ [Enter_get_valid_expirations "AAPL";
                        Enter_get_all_expiration_dates "AAPL"; Request_options "AAPL"]
                    ++ List.concat (map (fetch_events "AAPL") all)).
Proof.
  intros s'.
  assert (H1 : valid_cache sample_session !! "AAPL" = None) by reflexivity.
  assert (H2 : expirations_cache sample_session !! "AAPL" = None) by reflexivity.
  assert (H3 : ∀ e, chain_cache sample_session !! ("AAPL", e) = None)
    by (intros e; reflexivity).
  assert (H4 : @get_valid_expirations sample_provider "AAPL" sample_session
               = (Ok ["2025-02-21"], s')) by (vm_compute; reflexivity).
  split; [exact H1|]. split; [exact H2|]. split; [exact H3|]. split; [exact H4|].
  exact (@first_validation_requests sample_provider "AAPL" sample_session s'
           ["2025-02-21"] H1 H2 H3 H4).
Defined.

(** X5 on the sample provider: the listing for NONE fails. *)
Lemma failed_listing_is_remembered_witness :
  let s1 := (@get_all_expiration_dates sample_provider "NONE" sample_session).2 in
  expirations_cache sample_session !! "NONE" = None
  ∧ @yf_Ticker sample_provider "NONE" (world sample_session) = (Ok "NONE", 0)
  ∧ @yf_options sample_provider "NONE" 0 = (Raise ProviderError, 1)
  ∧ @get_all_expiration_dates sample_provider "NONE" (run sample_actions s1)
    = (Ok [], run sample_actions s1).
Proof.
  intros s1.
  split; [reflexivity|]. split; [reflexivity|]. split; [reflexivity|].
  exact (@failed_listing_is_remembered sample_provider "NONE" sample_session "NONE"
           ProviderError 0 1 sample_actions eq_refl eq_refl eq_refl).
Defined.

(** X6 on the sample provider: the chain of HALT fails, and the sample
    actions validate HALT afterwards. *)
Lemma failed_fetch_hides_expiration_witness :
  let s2 := run sample_actions
              (@get_options_chain sample_provider "HALT" "2025-03-21" sample_session).2 in
  @reachable sample_provider sample_session
  ∧ chain_cache sample_session !! ("HALT", "2025-03-21") = None
  ∧ @yf_Ticker sample_provider "HALT" (world sample_session) = (Ok "HALT", 0)
  ∧ @yf_option_chain sample_provider "HALT" "2025-03-21" 0 = (Raise ProviderError, 1)
  ∧ @get_options_chain sample_provider "HALT" "2025-03-21" s2 = (Ok DataFrame_new, s2)
  ∧ ∀ vs s3, @get_valid_expirations sample_provider "HALT" s2 = (Ok vs, s3) →
             "2025-03-21" ∉ vs.
Proof.
  intros s2.
  assert (Hreach : @reachable sample_provider sample_session)
    by (exists 0, []; reflexivity).
  split; [exact Hreach|].
  split; [reflexivity|]. split; [reflexivity|]. split; [reflexivity|].
  exact (@failed_fetch_hides_expiration sample_provider "HALT" "2025-03-21"
           sample_session "HALT" ProviderError 0 1 sample_actions
           Hreach eq_refl eq_refl eq_refl).
Defined.

(** X7 on the broken provider: the chain of BAD lacks openInterest. *)
Lemma valid_expirations_raises_witness :
  let s0 := @session_start broken_provider 0 in
  let s' := (@get_valid_expirations broken_provider "BAD" s0).2 in
  @get_valid_expirations broken_provider "BAD" s0 = (Raise (KeyError "openInterest"), s')
  ∧ valid_cache s' !! "BAD" = None
  ∧ valid_cache s' = valid_cache s0
  ∧ expirations_cache s0 ⊆ expirations_cache s'
  ∧ chain_cache s0 ⊆ chain_cache s'
  ∧ ((∃ w w', @yf_Ticker broken_provider "BAD" w = (Raise (KeyError "openInterest"), w'))
     ∨ ∃ all e df,
         expirations_cache s' !! "BAD" = Some all ∧ e ∈ all
         ∧ chain_cache s' !! ("BAD", e) = Some df ∧ empty df = false
         ∧ (KeyError "openInterest" = KeyError "openInterest"
            ∧ "openInterest" ∉ columns df
            ∨ KeyError "openInterest" = TypeError ∧ "openInterest" ∈ columns df)).
Proof.
  intros s0 s'.
  assert (Hrun : @get_valid_expirations broken_provider "BAD" s0
                 = (Raise (KeyError "openInterest"), s')) by (vm_compute; reflexivity).
  split; [exact Hrun|].
  exact (@valid_expirations_raises broken_provider "BAD" s0 s'
           (KeyError "openInterest") Hrun).
Defined.

(** X8 on the sample provider: AAPL is validated, then the sample
    actions run. *)
Lemma validation_stores_every_chain_witness :
  let s' := (@get_valid_expirations sample_provider "AAPL" sample_session).2 in
  let s2 := run sample_actions s' in
  @reachable sample_provider sample_session
  ∧ @get_valid_expirations sample_provider "AAPL" sample_session
    = (Ok ["2025-02-21"], s')
  ∧ ∃ all, @get_all_expiration_dates sample_provider "AAPL" s2 = (Ok all, s2)
      ∧ (∀ e, e ∈ all → ∃ df, @get_options_chain sample_provider "AAPL" e s2 = (Ok df, s2))
      ∧ (∀ e, e ∈ ["2025-02-21"] →
           ∃ df, @get_options_chain sample_provider "AAPL" e s2 = (Ok df, s2)
                 ∧ empty df = false).
Proof.
  intros s' s2.
  assert (Hreach : @reachable sample_provider sample_session)
    by (exists 0, []; reflexivity).
  assert (Hrun : @get_valid_expirations sample_provider "AAPL" sample_session
                 = (Ok ["2025-02-21"], s')) by (vm_compute; reflexivity).
  split; [exact Hreach|]. split; [exact Hrun|].
  exact (@validation_stores_every_chain sample_provider "AAPL" sample_session s'
           ["2025-02-21"] sample_actions Hreach Hrun).
Defined.

(** X10 on the sample provider: the chain of AAPL for 2025-02-21. *)
Lemma get_options_chain_is_stamped_witness :
  let s' := (@get_options_chain sample_provider "AAPL" "2025-02-21" sample_session).2 in
  @reachable sample_provider sample_session
  ∧ @get_options_chain sample_provider "AAPL" "2025-02-21" sample_session
    = (Ok (normalize sample_calls sample_puts "2025-02-21"), s')
  ∧ (normalize sample_calls sample_puts "2025-02-21" = DataFrame_new
     ∨ stamped "2025-02-21" (normalize sample_calls sample_puts "2025-02-21")).
Proof.
  intros s'.
  assert (Hreach : @reachable sample_provider sample_session)
    by (exists 0, []; reflexivity).
  assert (Hrun : @get_options_chain sample_provider "AAPL" "2025-02-21" sample_session
                 = (Ok (normalize sample_calls sample_puts "2025-02-21"), s'))
    by (vm_compute; reflexivity).
  split; [exact Hreach|]. split; [exact Hrun|].
  exact (@get_options_chain_is_stamped sample_provider "AAPL" "2025-02-21"
           sample_session s' _ Hreach Hrun).
Defined.

(** X11 on the sample provider: the chain of AAPL for 2025-02-21. *)
Lemma single_chain_sorted_by_strike_witness :
  let df := normalize sample_calls sample_puts "2025-02-21" in
  let s' := (@get_options_chain sample_provider "AAPL" "2025-02-21" sample_session).2 in
  @reachable sample_provider sample_session
  ∧ @get_options_chain sample_provider "AAPL" "2025-02-21" sample_session = (Ok df, s')
  ∧ chain_table df = true
  ∧ ∃ v, plot_open_interest_sorted df = (Ok v, df)
         ∧ StronglySorted strike_asc (rows v)
         ∧ ∀ k, filter (fun r => cell r.2 "strike" = k) (rows v)
                = filter (fun r => cell r.2 "strike" = k)
                         (filter (fun r => positive (cell r.2 "openInterest")) (rows df)).
Proof.
  intros df s'.
  assert (Hreach : @reachable sample_provider sample_session)
    by (exists 0, []; reflexivity).
  assert (Hrun : @get_options_chain sample_provider "AAPL" "2025-02-21" sample_session
                 = (Ok df, s')) by (vm_compute; reflexivity).
  assert (Hct : chain_table df = true) by (vm_compute; reflexivity).
  split; [exact Hreach|]. split; [exact Hrun|]. split; [exact Hct|].
  exact (@single_chain_sorted_by_strike sample_provider "AAPL" "2025-02-21"
           sample_session s' df Hreach Hrun Hct).
Defined.

(** ** The page *)

Section PageProperties.
Context `{P : Provider}.

Lemma listed_chain_stored t s vs s' :
  reachable s → get_valid_expirations t s = (Ok vs, s') →
  reachable s'
  ∧ ∀ e, e ∈ vs → ∃ df, chain_cache s' !! (t, e) = Some df ∧ empty df = false.
Proof.
  intros Hreach Hrun. split.
  { replace s' with (perform (Call_get_valid_expirations t) s)
      by (simpl; by rewrite Hrun).
    by apply reachable_perform. }
  apply get_valid_expirations_spec in Hrun as (_ & Hstored & Hc).
  destruct (Hc (reachable_consistent _ Hreach)) as [Hinv _].
  destruct (Hinv t vs (Hstored vs eq_refl)) as (all & _ & _ & ->).
  intros e [Hv _]%list_elem_of_filter. unfold chain_valid in Hv.
  destruct (chain_cache s' !! (t, e)) as [df|]; [|done].
  exists df. split; [done|].
  destruct (has_open_interest df) as [[]|] eqn:Hok; try done.
  by apply has_open_interest_true in Hok as [? _].
Qed.

Lemma picked_elem (vs : list string) pick : vs ≠ [] → picked vs pick ∈ vs.
Proof.
  intros Hne. unfold picked. rewrite nth_lookup.
  destruct (lookup_lt_is_Some_2 vs (pick `min` (length vs - 1))) as [e He].
  { destruct vs; [done|]. simpl. lia. }
  rewrite He. simpl. by eapply list_elem_of_lookup_2.
Qed.

Lemma differ_only_on_nonempty cs df df' :
  differ_only_on cs df df' → empty df = false → empty df' = false.
Proof.
  intros [(added & Hcols & _) Hrows]. unfold empty. rewrite Hcols.
  apply Forall2_length in Hrows.
  destruct (columns df) as [|c cs']; [done|].
  destruct (rows df) as [|r l]; [done|].
  destruct (rows df') as [|r' l']; [done|]. done.
Qed.

Lemma plot_volume_state df : (plot_volume df).2 = df.
Proof.
  unfold plot_volume, mbind, M_bind, get_df, lift. simpl.
  destruct (getitem df "volume") as [vol|]; [|done].
  by destruct (series_gt0 vol).
Qed.

Lemma plot_open_interest_sorted_state df : (plot_open_interest_sorted df).2 = df.
Proof.
  unfold plot_open_interest_sorted, mbind, M_bind, get_df, lift. simpl.
  destruct (getitem df "openInterest") as [oi|]; [|done].
  destruct (series_gt0 oi); [|done]. by destruct (sort_values _ _).
Qed.

Lemma chosen_plot_nonempty pick df :
  empty df = false → empty (chosen_plot pick df).2 = false.
Proof.
  intros Hne. destruct pick as [|[|pick]]; cbn [chosen_plot].
  - eapply differ_only_on_nonempty; [|done].
    apply (proj1 (plot_change_in_open_interest_frame df)).
  - by rewrite plot_volume_state.
  - by rewrite plot_open_interest_sorted_state.
Qed.

(** *** The steps of the script *)

Lemma reset_if_changed_eq e p :
  session_ok (page_session p) →
  reset_if_changed e p
  = (Done (), mkPage (page_app p) (after_reset e (page_session p)) (page_screen p)).
Proof.
  intros (_ & Hsel & _). destruct p as [s ss scr]. simpl in *.
  unfold reset_if_changed, after_reset, expiry_changed, mbind, Script_bind, get_session.
  simpl.
  destruct (ss !! "options_data") as [v|] eqn:Hv; simpl; [|done].
  destruct Hsel as [->|[e' ->]]; simpl; [done|].
  by destruct (bool_decide (e' = e)).
Qed.

Lemma after_reset_ok e ss : session_ok ss → session_ok (after_reset e ss).
Proof.
  intros Hok. unfold after_reset. destruct (expiry_changed e ss); [|done].
  destruct Hok as (_ & Hsel & _).
  split; [|split; [|split]].
  - right. exists false. by simplify_map_eq.
  - by simplify_map_eq.
  - right. left. by simplify_map_eq.
  - by simplify_map_eq.
Qed.

Lemma after_fetch_ok e df ss :
  empty df = false → session_ok ss → session_ok (after_fetch e df ss).
Proof.
  intros Hne _. unfold after_fetch.
  split; [|split; [|split]].
  - right. exists true. by simplify_map_eq.
  - right. exists e. by simplify_map_eq.
  - right. right. exists df. by simplify_map_eq.
  - intros _. exists df. by simplify_map_eq.
Qed.

Lemma call_Done {A} (m : M AppState A) p a s :
  m (page_app p) = (Ok a, s) →
  call m p = (Done a, mkPage s (page_session p) (page_screen p)).
Proof. intros H. unfold call. by rewrite H. Qed.

Lemma call_Failed {A} (m : M AppState A) p x s :
  m (page_app p) = (Raise x, s) →
  call m p = (Failed (Raised x), mkPage s (page_session p) (page_screen p)).
Proof. intros H. unfold call. by rewrite H. Qed.

Lemma fetch_if_clicked_eq clicked t e df p :
  chain_cache (page_app p) !! (t, e) = Some df →
  fetch_if_clicked clicked t e p
  = (Done (),
     mkPage (page_app p)
            (if clicked then after_fetch e df (page_session p) else page_session p)
            (page_screen p ++ [Button "Fetch Options Data"])).
Proof.
  intros Hdf. destruct p as [s ss scr]. simpl in *.
  unfold fetch_if_clicked, mbind, Script_bind, show.
  destruct clicked; [|done].
  rewrite (call_Done _ _ df s) by exact (get_options_chain_hit _ _ _ _ Hdf).
  done.
Qed.

Lemma show_plot_eq df pick p :
  show_plot df pick p
  = pyplot (chosen_plot (pick `min` 2)) df
      (mkPage (page_app p) (page_session p)
              (page_screen p
               ++ [Selectbox "Choose a bar plot to display:" plot_options])).
Proof. by destruct pick as [|[|[|pick]]]. Qed.

Lemma pyplot_session_ok plot df p :
  empty (plot df).2 = false →
  session_ok (page_session p) →
  session_ok (page_session (pyplot plot df p).2)
  ∧ page_app (pyplot plot df p).2 = page_app p.
Proof.
  intros Hne (Hf & Hsel & _ & _). unfold pyplot.
  destruct (plot df) as [[fig|x] df'] eqn:Hplot; simpl in *.
  all: split; [|done].
  all: split; [by simplify_map_eq|].
  all: split; [by simplify_map_eq|].
  all: split; [right; right; exists df'; by simplify_map_eq|].
  all: intros _; exists df'; by simplify_map_eq.
Qed.

(** What [display] does on a session the script has kept. *)
Lemma display_eq t pick p :
  session_ok (page_session p) →
  (page_session p !! "data_fetched" = Some (SBool true) →
   ∃ df, page_session p !! "options_data" = Some (SFrame df)
         ∧ empty df = false
         ∧ display t pick p
           = show_plot df pick
               (mkPage (page_app p) (page_session p)
                  (page_screen p
                   ++ [Success "Data fetched successfully!";
                       Download_button "Download CSV" df (t ++ "_options.csv")
                                       "text/csv"])))
  ∧ (page_session p !! "data_fetched" ≠ Some (SBool true) →
     display t pick p = (Done (), p)).
Proof.
  intros (Hf & _ & _ & Hdata). destruct p as [s ss scr]. simpl in *.
  unfold display, mbind, Script_bind, get_session. simpl. split.
  - intros Htrue. destruct (Hdata Htrue) as (df & Hdf & Hne).
    exists df. split; [done|]. split; [done|].
    rewrite Htrue. simpl. unfold session_getitem, mbind, Script_bind, get_session.
    simpl. rewrite Hdf. simpl. rewrite Hne. simpl.
    unfold show. simpl. by rewrite <- app_assoc.
  - intros Hfalse. destruct Hf as [Hn|[[] Hb]].
    + by rewrite Hn.
    + by destruct Hfalse.
    + by rewrite Hb.
Qed.

End PageProperties.
